(** * fast-css-split-webpack-plugin: the manifest rewriter of [lib/index.js]

    A shallow embedding of the plugin ([isCSS], [strip], [nameInterpolator],
    [normalizeImports], the constructor, [file] and [chunksMapping]) and the
    properties of it that the specification states.

    JavaScript strings are [string]; the asset table ([compilation.assets],
    an object used as a map from names to Source objects) is a
    [gmap string Source]; a chunk's [files] array is a [list string], every
    chunk having an array of its own; exceptions are the [Throw] result of
    a small allocation-and-error monad.  Names are file names: none of them
    is a property that the asset table inherits from [Object.prototype].
    [apply] only hands [chunksMapping] to the hooks of the compiler and is
    not part of the embedding. *)

From Stdlib Require Import Ascii ZArith Decimal DecimalString.
From Stdlib Require String DecimalNat.
From stdpp Require Import base option list gmap strings.


(** ** Strings as JavaScript uses them *)

Module Js.

(** [s.endsWith(suffix)]: [s] is the suffix, or its tail ends with it. *)
Fixpoint endsWith (suffix s : string) : bool :=
  String.eqb s suffix
  || match s with
     | EmptyString => false
     | String _ s' => endsWith suffix s'
     end.

(** [s.startsWith(p)]. *)
Definition startsWith (p s : string) : bool := String.prefix p s.

(** [s.slice(0, -1)]: the string without its last character. *)
Fixpoint dropLast (s : string) : string :=
  match s with
  | EmptyString => EmptyString
  | String c EmptyString => EmptyString
  | String c s' => String c (dropLast s')
  end.

(** [s.replace(/pat/g, rep)] for a literal, non-empty pattern: the matches
    are taken left to right and do not overlap.  [skip] counts the
    characters of the current match still to be passed over. *)
Fixpoint replaceAllFrom (pat rep : string) (skip : nat) (s : string) : string :=
  match s with
  | EmptyString => EmptyString
  | String c s' =>
      match skip with
      | S k => replaceAllFrom pat rep k s'
      | O =>
          if String.prefix pat s
          then rep +:+ replaceAllFrom pat rep (String.length pat - 1) s'
          else String c (replaceAllFrom pat rep 0 s')
      end
  end.

Definition replaceAll (pat rep s : string) : string :=
  replaceAllFrom pat rep 0 s.

(** [String(n)] for a non-negative integer [n]. *)
Definition ofNat (n : nat) : string :=
  NilZero.string_of_uint (Nat.to_uint n).

(** [xs.join(sep)]. *)
Definition join (sep : string) (xs : list string) : string :=
  String.concat sep xs.

Definition newline : string := String (ascii_of_nat 10) EmptyString.
Definition dquote : string := String (ascii_of_nat 34) EmptyString.

(** The values an option of the plugin can be given. *)
Inductive value :=
| Undefined
| Null
| Boolean (b : bool)
| Number (z : Z)
| Str (s : string)
| Function
| Object.

(** [typeof v]. *)
Definition typeof (v : value) : string :=
  match v with
  | Undefined => "undefined"
  | Null => "object"
  | Boolean _ => "boolean"
  | Number _ => "number"
  | Str _ => "string"
  | Function => "function"
  | Object => "object"
  end.

(** Truthiness, as [if (v)] and [!v] test it. *)
Definition truthy (v : value) : bool :=
  match v with
  | Undefined | Null => false
  | Boolean b => b
  | Number z => negb (z =? 0)%Z
  | Str s => negb (String.eqb s EmptyString)
  | Function | Object => true
  end.

(** Reading a string property that may be missing and using it as text or
    as a key: a missing property reads as [undefined]. *)
Definition text (p : option string) : string := default "undefined" p.

Inductive error := TypeError.

Inductive completion (A : Type) :=
| Ok (a : A)
| Throw (e : error).
Arguments Ok {A} a.
Arguments Throw {A} e.

End Js.

Import Js (Ok, Throw, TypeError).

(** ** The helpers at the top of the module *)

(** [const isCSS = (name) => /\.css$/.test(name)] *)
Definition isCSS (name : string) : bool := Js.endsWith ".css" name.

(** [const strip = (str) => str.replace(/\/$/, '')] *)
Definition strip (str : string) : string :=
  if Js.endsWith "/" str then Js.dropLast str else str.


(** ** Source objects, entries and the manifest *)

(** A Source object of webpack-sources.  Once [file] has set [name] and
    [fullname] on a part nothing writes to an object again, so an object is
    its identity [oid] together with its fields: [value] is what [source()]
    returns (the [_value] of a RawSource); [name] and [fullname] are missing
    on the objects the plugin did not create as parts. *)
Module Source.
Record t := make {
  oid : nat;
  value : string;
  name : option string;
  fullname : option string
}.
Global Instance eq_dec : EqDecision t.
Proof. solve_decision. Defined.
End Source.

(** What [file] returns: [{ dirname, file: key, chunks }]. *)
Module Entry.
Record t := make {
  dirname : string;
  file : string;
  chunks : list Source.t
}.
End Entry.

(** The argument of a name function: [{ file, content, index }]; [index] is
    missing when [chunksMapping] names the imports file. *)
Module NameArgs.
Record t := make {
  file : string;
  content : string;
  index : option nat
}.
End NameArgs.

(** [this.options].  [imports] yields a name, or [None] for [false]. *)
Module Options.
Record t := make {
  size : Z;
  imports : NameArgs.t → option string;
  filename : NameArgs.t → string;
  preserve : Js.value;
  defer : bool
}.
End Options.

(** The object given to the constructor; [None] and [Js.Undefined] stand for
    a property that is missing or [undefined]. *)
Module Config.
Record t := make {
  size : option Z;
  imports : Js.value;
  filename : option string;
  preserve : Js.value;
  defer : option bool
}.
End Config.

(** The two structures [chunksMapping] rewrites while it visits one chunk:
    [compilation.assets] and that chunk's [files]. *)
Record Manifest := {
  assets : gmap string Source.t;
  files : list string
}.

(** [compilation.assets] and [compilation.options.output.publicPath]. *)
Record Compilation := {
  compilationAssets : gmap string Source.t;
  publicPath : option string
}.

(** ** Allocation and exceptions

    A computation takes the identity the next new object will get and
    either throws or returns its result with the next free identity. *)
Definition M (A : Type) : Type := nat → Js.completion (A * nat).

Global Instance M_ret : MRet M := λ A a n, Ok (a, n).
Global Instance M_bind : MBind M := λ A B f m n,
  match m n with
  | Ok (a, n') => f a n'
  | Throw e => Throw e
  end.

Definition throw {A} (e : Js.error) : M A := λ _, Throw e.

(** [new RawSource(value)] *)
Definition newRawSource (value : string) : M Source.t :=
  λ n, Ok (Source.make n value None None, S n).

(** [xs.map((x, i) => f(i, x))] for an [f] that allocates or throws. *)
Fixpoint mapiM {A B} (f : nat → A → M B) (i : nat) (xs : list A) : M (list B) :=
  match xs with
  | [] => mret []
  | x :: xs' => y ← f i x; ys ← mapiM f (S i) xs'; mret (y :: ys)
  end.

(** [xs.forEach(x => { s = f(x, s) })] for an [f] that allocates. *)
Fixpoint forEachM {A S} (f : A → S → M S) (xs : list A) (s : S) : M S :=
  match xs with
  | [] => mret s
  | x :: xs' => s' ← f x s; forEachM f xs' s'
  end.

(** [xs.indexOf(x)]; [None] is [-1]. *)
Fixpoint indexOf (x : string) (xs : list string) : option nat :=
  match xs with
  | [] => None
  | y :: ys => if decide (y = x) then Some 0 else S <$> indexOf x ys
  end.

(** [xs.splice(start, 1)] for a [start] that [indexOf] returned: the start
    [-1] counts from the end, so the last element goes. *)
Definition splice1 (start : option nat) (xs : list string) : list string :=
  match start with
  | Some i => delete i xs
  | None => removelast xs
  end.

(** ** The plugin *)

(** The modules that [lib/index.js] requires, as far as it uses them:
    - [split source size]: [css-split], giving the [content] of each part;
    - [interpolateName resourcePath name content]: loader-utils'
      [interpolateName({context: '/', resourcePath}, name, {content})];
    - [dirname]: Node's [path.dirname]. *)
Class Collaborators := {
  split : string → Z → list string;
  interpolateName : string → string → string → string;
  dirname : string → string
}.

Section Plugin.

Context {collaborators : Collaborators}.

(** [index + 1] as the replacement text: a missing index gives [NaN]. *)
Definition partNumber (index : option nat) : string :=
  match index with
  | Some i => Js.ofNat (i + 1)
  | None => "NaN"
  end.

(** [const nameInterpolator = (input) => ({ file, content, index }) => ...] *)
Definition nameInterpolator (input : string) (a : NameArgs.t) : string :=
  Js.replaceAll "[part]" (partNumber (NameArgs.index a))
    (interpolateName ("/" +:+ NameArgs.file a) input (NameArgs.content a)).

(** [const normalizeImports = (input, preserve) => ...] *)
Definition normalizeImports (input preserve : Js.value)
  : Js.completion (NameArgs.t → option string) :=
  match input with
  | Js.Str s => Ok (λ a, Some (nameInterpolator s a))
  | Js.Boolean true =>
      if Js.truthy preserve
      then Ok (λ a, Some (nameInterpolator "[name]-split.[ext]" a))
      else Ok (λ a, Some (NameArgs.file a))
  | Js.Boolean false => Ok (λ _, None)
  | _ => Throw TypeError
  end.

(** [constructor ({ size = 4000, imports = false,
      filename = '[name]-[part].[ext]', preserve, defer = false })] *)
Definition constructor (c : Config.t) : Js.completion Options.t :=
  let size := default 4000%Z (Config.size c) in
  let imports :=
    match Config.imports c with
    | Js.Undefined => Js.Boolean false
    | v => v
    end in
  let filename := default "[name]-[part].[ext]" (Config.filename c) in
  let preserve := Config.preserve c in
  let defer := default false (Config.defer c) in
  match normalizeImports imports preserve with
  | Ok importsFn =>
      Ok (Options.make size importsFn (nameInterpolator filename) preserve defer)
  | Throw e => Throw e
  end.

(** [dirname && dirname !== '.'] *)
Definition hasDir (d : string) : bool :=
  negb (String.eqb d EmptyString) && negb (String.eqb d ".").

(** [hasDir(d) ? `${d}/${name}` : name] *)
Definition inDir (d name : string) : string :=
  if hasDir d then d +:+ "/" +:+ name else name.

Section Methods.

Variable options : Options.t.

(** [file (key, asset)]; [asset] is [None] when [assets[key]] is
    [undefined], and [asset.source()] then throws. *)
Definition file (key : string) (asset : option Source.t) : M Entry.t :=
  match asset with
  | None => throw TypeError
  | Some asset =>
      let source := Source.value asset in
      let dir := dirname key in
      let getName i :=
        Options.filename options (NameArgs.make key source (Some i)) in
      chunks ← mapiM (λ i part,
          result ← newRawSource part;
          let name := getName i in
          mret (Source.make (Source.oid result) (Source.value result)
                  (Some name) (Some (inDir dir name))))
        0 (split source (Options.size options));
      mret (Entry.make dir key chunks)
  end.

(** [assets[file.fullname] = file; chunk.files.push(file.fullname)] *)
Definition inject (file : Source.t) (m : Manifest) : Manifest :=
  {| assets := <[Js.text (Source.fullname file) := file]> (assets m);
     files := files m ++ [Js.text (Source.fullname file)] |}.

(** The import statement of one part. *)
Definition importStatement (publicPath : string) (file : Source.t) : string :=
  if Js.startsWith "." publicPath
  then "@import " +:+ Js.dquote +:+ "./" +:+ Js.text (Source.name file)
         +:+ Js.dquote +:+ ";"
  else "@import " +:+ Js.dquote +:+ publicPath +:+ "/"
         +:+ Js.text (Source.fullname file) +:+ Js.dquote +:+ ";".

(** The first half of the [entries.forEach] body: the imports file, and
    the manifest after the parts went in. *)
Definition importsFileOf (publicPath : string) (entry : Entry.t) (m : Manifest)
  : M (Source.t * Manifest) :=
  match Entry.chunks entry with
  | [only] => mret (only, m)
  | chunks =>
      let m' := foldl (λ m file, inject file m) m chunks in
      let content := Js.join Js.newline (importStatement publicPath <$> chunks) in
      importsFile ← newRawSource content;
      mret (importsFile, m')
  end.

(** [chunk.files.splice(chunk.files.indexOf(entry.file), 1);
     delete assets[entry.file]] when the asset was split and is not
    preserved. *)
Definition dropOriginal (entry : Entry.t) (m : Manifest) : Manifest :=
  if bool_decide (1 < length (Entry.chunks entry))
     && negb (Js.truthy (Options.preserve options))
  then {| assets := delete (Entry.file entry) (assets m);
          files := splice1 (indexOf (Entry.file entry) (files m)) (files m) |}
  else m.

(** The end of the body: the imports file goes in under the name that
    [options.imports] gives, when that name is truthy. *)
Definition registerImports (entry : Entry.t) (importsFile : Source.t) (m : Manifest)
  : Manifest :=
  match Options.imports options
          (NameArgs.make (Entry.file entry) (Source.value importsFile) None) with
  | Some imports =>
      if String.eqb imports EmptyString then m
      else
        let imports := inDir (Entry.dirname entry) imports in
        {| assets := <[imports := importsFile]> (assets m);
           files := files m ++ [imports] |}
  | None => m
  end.

(** The body of [entries.forEach((entry) => { ... })]. *)
Definition forEntry (publicPath : string) (entry : Entry.t) (m : Manifest)
  : M Manifest :=
  '(importsFile, m) ← importsFileOf publicPath entry m;
  let m := dropOriginal entry m in
  mret (registerImports entry importsFile m).

(** [const input = chunk.files.filter(isCSS);
     const entries = input.map((name) => this.file(name, assets[name]))] *)
Definition entriesFor (m : Manifest) : M (list Entry.t) :=
  let input := filter (λ name, isCSS name = true) (files m) in
  mapiM (λ _ name, file name (assets m !! name)) 0 input.

(** The body of [chunks.map((chunk) => { ... })]: the chunk's files and
    the asset table go in, and come out rewritten. *)
Definition forChunk (publicPath : string) (m : Manifest) : M Manifest :=
  entries ← entriesFor m;
  forEachM (forEntry publicPath) entries m.

(** *** What a run does, entry by entry

    The definitions below only name what the code above computes on
    its way, for the statements about a whole run. *)

(** The part that [file] makes of the [i]-th segment, [content], of the
    asset [key] with the text [source], when the first part gets the
    identity [n]. *)
Definition partAt (key source : string) (n i : nat) (content : string)
  : Source.t :=
  let name := Options.filename options (NameArgs.make key source (Some i)) in
  Source.make (n + i) content (Some name) (Some (inDir (dirname key) name)).

(** An entry as [file] builds it from the asset table [table]. *)
Definition builtFrom (table : gmap string Source.t) (e : Entry.t) : Prop :=
  ∃ a n, table !! Entry.file e = Some a
         ∧ e = Entry.make (dirname (Entry.file e)) (Entry.file e)
                 (imap (partAt (Entry.file e) (Source.value a) n)
                    (split (Source.value a) (Options.size options))).

(** [importsFile._value] for an entry. *)
Definition importsContent (publicPath : string) (entry : Entry.t) : string :=
  match Entry.chunks entry with
  | [only] => Source.value only
  | chunks => Js.join Js.newline (importStatement publicPath <$> chunks)
  end.

(** The imports file of an entry, when [n] is the next free identity. *)
Definition importsFileAt (publicPath : string) (entry : Entry.t) (n : nat)
  : Source.t :=
  match Entry.chunks entry with
  | [only] => only
  | _ => Source.make n (importsContent publicPath entry) None None
  end.

(** The manifest after the parts of an entry went in. *)
Definition injectAll (entry : Entry.t) (m : Manifest) : Manifest :=
  match Entry.chunks entry with
  | [only] => m
  | chunks => foldl (λ m file, inject file m) m chunks
  end.

(** The names under which the parts of an entry are registered. *)
Definition partNames (entry : Entry.t) : list string :=
  match Entry.chunks entry with
  | [only] => []
  | chunks => (λ file, Js.text (Source.fullname file)) <$> chunks
  end.

(** The name under which the imports file of an entry is registered. *)
Definition importsName (publicPath : string) (entry : Entry.t) : list string :=
  match Options.imports options
          (NameArgs.make (Entry.file entry) (importsContent publicPath entry) None) with
  | Some imports =>
      if String.eqb imports EmptyString then []
      else [inDir (Entry.dirname entry) imports]
  | None => []
  end.

(** Every name an entry registers an object under. *)
Definition registeredNames (publicPath : string) (entry : Entry.t) : list string :=
  partNames entry ++ importsName publicPath entry.

(** Whether the original of an entry is dropped. *)
Definition isDropped (entry : Entry.t) : bool :=
  bool_decide (1 < length (Entry.chunks entry))
  && negb (Js.truthy (Options.preserve options)).

(** The files of the entries whose original is dropped. *)
Definition droppedNames (entries : list Entry.t) : list string :=
  Entry.file <$> filter (λ e, isDropped e = true) entries.

(** The [entries] arrays built during a run, one for each chunk that
    the run reaches. *)
Fixpoint processed (publicPath : string) (assets0 : gmap string Source.t)
    (chunks : list (list string)) (n : nat) : list (list Entry.t) :=
  match chunks with
  | [] => []
  | chunkFiles :: rest =>
      let m := {| assets := assets0; files := chunkFiles |} in
      match entriesFor m n with
      | Ok (entries, n1) =>
          entries ::
            match forEachM (forEntry publicPath) entries m n1 with
            | Ok (m', n2) => processed publicPath (assets m') rest n2
            | Throw _ => []
            end
      | Throw _ => []
      end
  end.

(** [chunks.map] over the chunks, the asset table handed on. *)
Fixpoint forChunks (publicPath : string) (assets0 : gmap string Source.t)
    (chunks : list (list string)) : M (gmap string Source.t * list (list string)) :=
  match chunks with
  | [] => mret (assets0, [])
  | chunkFiles :: rest =>
      m ← forChunk publicPath {| assets := assets0; files := chunkFiles |};
      '(assets', rest') ← forChunks publicPath (assets m) rest;
      mret (assets', files m :: rest')
  end.

(** [strip(compilation.options.output.publicPath || './')] *)
Definition publicPathOf (compilation : Compilation) : string :=
  strip (match publicPath compilation with
         | Some p => if String.eqb p EmptyString then "./" else p
         | None => "./"
         end).

(** [chunksMapping (compilation, chunks, done)]: a chunk is its [files]
    array; the result is the asset table and the chunks as they are when
    [done()] is called. *)
Definition chunksMapping (compilation : Compilation) (chunks : list (list string))
  : M (gmap string Source.t * list (list string)) :=
  forChunks (publicPathOf compilation) (compilationAssets compilation) chunks.

(** The entries of a call of [chunksMapping], chunk by chunk. *)
Definition entriesOf (compilation : Compilation) (chunks : list (list string))
    (n : nat) : list (list Entry.t) :=
  processed (publicPathOf compilation) (compilationAssets compilation) chunks n.

(** Every name under which a call of [chunksMapping] registers an
    object: the full paths of the parts and the names of the imports
    files of all its entries. *)
Definition namesRegistered (compilation : Compilation)
    (chunks : list (list string)) (n : nat) : list string :=
  mjoin (entriesOf compilation chunks n)
    ≫= registeredNames (publicPathOf compilation).

End Methods.

End Plugin.

(** ** The splitter

    [css-split] is a dependency of the plugin and its code is not part of
    [lib/index.js]; the specification describes it (section 4.1). *)

Module Splitter.

(** Modelled from the spec: the states of the scanner of [css-split], which
    must tell structural braces from braces in string and comment literals.
    The scanner is in plain stylesheet text ([Slash]: right after a [/]),
    inside a string literal opened by [q] ([Escaped]: right after a
    backslash in it), or inside a comment ([CommentStar]: right after a
    [*] in it). *)
Inductive mode :=
| Code
| Slash
| Quoted (q : ascii)
| Escaped (q : ascii)
| Comment
| CommentStar.

(** Whether [c] is the one character of [s]. *)
Definition isChar (c : ascii) (s : string) : bool :=
  String.eqb (String c EmptyString) s.

(** Modelled from the spec: the rule boundaries of [css-split].  One
    character of plain text at nesting depth [d] gives the mode and depth
    after it, and whether it ends a top-level rule (the [}] that closes a
    top-level block, or a [;] outside any block).  A [}] with no block
    open also counts as the end of a rule. *)
Definition codeStep (d : nat) (c : ascii) : mode * nat * bool :=
  if isChar c "{" then (Code, S d, false)
  else if isChar c "}" then (Code, Nat.pred d, bool_decide (d ≤ 1))
  else if isChar c ";" then (Code, d, bool_decide (d = 0))
  else if isChar c "/" then (Slash, d, false)
  else if isChar c "'" then (Quoted c, d, false)
  else if String.eqb (String c EmptyString) Js.dquote then (Quoted c, d, false)
  else (Code, d, false).

(** Modelled from the spec: one step of the scan of [css-split].  Braces
    and semicolons inside string literals and comments are not
    structural. *)
Definition step (m : mode) (d : nat) (c : ascii) : mode * nat * bool :=
  match m with
  | Code => codeStep d c
  | Slash => if isChar c "*" then (Comment, d, false) else codeStep d c
  | Quoted q =>
      if isChar c "\" then (Escaped q, d, false)
      else if Ascii.eqb c q then (Code, d, false)
      else (Quoted q, d, false)
  | Escaped q => (Quoted q, d, false)
  | Comment => if isChar c "*" then (CommentStar, d, false) else (Comment, d, false)
  | CommentStar =>
      if isChar c "/" then (Code, d, false)
      else if isChar c "*" then (CommentStar, d, false)
      else (Comment, d, false)
  end.

(** Modelled from the spec: the end of the scan of [css-split].  What
    follows the last closed segment and holds no complete rule stays with
    that segment (so a text of no more rules than the limit is one
    segment); otherwise the current segment is the last one. *)
Definition finish (closed : list string) (current : string) (rules : nat)
  : list string :=
  match rules, last closed with
  | O, Some s => removelast closed ++ [s +:+ current]
  | _, _ => closed ++ [current]
  end.

(** Modelled from the spec: the single linear scan of [css-split].
    [closed] are the segments already closed, [current] the text of the
    segment being filled and [rules] the rules it holds.  A segment is
    closed when its rule count reaches the limit; the text between two
    rules goes with the rule that follows it. *)
Fixpoint scan (limit : Z) (m : mode) (d : nat) (closed : list string)
    (current : string) (rules : nat) (text : string) : list string :=
  match text with
  | EmptyString => finish closed current rules
  | String c rest =>
      let '(m', d', ends) := step m d c in
      let current' := current +:+ String c EmptyString in
      if ends then
        if (limit <=? Z.of_nat (S rules))%Z
        then scan limit m' d' (closed ++ [current']) EmptyString 0 rest
        else scan limit m' d' closed current' (S rules) rest
      else scan limit m' d' closed current' rules rest
  end.

(** Modelled from the spec: the splitter [split(text, maxRuleCount)] of
    the [css-split] package, which the plugin calls and whose code is not
    among the sources. *)
Definition split (text : string) (maxRuleCount : Z) : list string :=
  scan maxRuleCount Code 0 [] EmptyString 0 text.

End Splitter.


(** ** Stand-ins for the other collaborators

    The properties below hold for every [split], [interpolateName] and
    [dirname].  The closed examples need concrete ones: [Splitter.split],
    and the two functions here. *)

Module Sample.

Definition isSlash (c : ascii) : bool := Ascii.eqb c "/"%char.

(** The loop of Node's posix [path.dirname]: from the last character down
    to index 1, the index of the first [/] met after a character that is
    not one. *)
Fixpoint dirnameEnd (reversed : list ascii) (i : nat) (matchedSlash : bool)
  : option nat :=
  match reversed, i with
  | c :: more, S i' =>
      if isSlash c
      then if matchedSlash then dirnameEnd more i' true else Some i
      else dirnameEnd more i' false
  | _, _ => None
  end.

(** Node's posix [path.dirname]. *)
Definition dirname (path : string) : string :=
  match path with
  | EmptyString => "."
  | String c0 _ =>
      let hasRoot := isSlash c0 in
      let chars := String.list_ascii_of_string path in
      match dirnameEnd (reverse chars) (length chars - 1) true with
      | None => if hasRoot then "/" else "."
      | Some e =>
          if hasRoot && bool_decide (e = 1) then "//"
          else String.string_of_list_ascii (take e chars)
      end
  end.

(** The text after the last [/]; [candidate] is the text after the last
    one met so far. *)
Fixpoint afterLastSlash (candidate s : string) : string :=
  match s with
  | EmptyString => candidate
  | String c rest =>
      if isSlash c then afterLastSlash rest rest else afterLastSlash candidate rest
  end.

Definition base (path : string) : string := afterLastSlash path path.

(** The part of a base name from its last dot on, when that dot is not
    its first character. *)
Fixpoint extFrom (first : bool) (s : string) : option string :=
  match s with
  | EmptyString => None
  | String c rest =>
      match extFrom false rest with
      | Some e => Some e
      | None => if Ascii.eqb c "."%char && negb first then Some s else None
      end
  end.

(** loader-utils' [interpolateName] for the placeholders [[name]] and
    [[ext]]: the base name of the resource without its extension, and the
    extension without its dot ([file] and [bin] when there is none). *)
Definition interpolateName (resourcePath name content : string) : string :=
  let b := base resourcePath in
  let dotExt := default EmptyString (extFrom true b) in
  let ext :=
    match dotExt with
    | EmptyString => "bin"
    | String _ e => e
    end in
  let basename :=
    String.substring 0 (String.length b - String.length dotExt) b in
  Js.replaceAll "[name]" basename (Js.replaceAll "[ext]" ext name).

Definition collaborators : Collaborators :=
  Build_Collaborators Splitter.split interpolateName dirname.

End Sample.


(** ** A small build

    One chunk with a script and a style sheet of two rules, served under
    [/foo], for the closed examples. *)

Module Scenario.

(** An object that the pipeline made. *)
Definition host (id : nat) (content : string) : Source.t :=
  Source.make id content None None.

Definition table : gmap string Source.t :=
  <["styles.css" := host 0 "a{}b{}"]> (<["main.js" := host 1 "js"]> ∅).

Definition compilation : Compilation :=
  {| compilationAssets := table; publicPath := Some "/foo" |}.

Definition chunks : list (list string) := [["main.js"; "styles.css"]].

(** [{ size, imports, preserve }] *)
Definition config (size : Z) (imports preserve : Js.value) : Config.t :=
  Config.make (Some size) imports None preserve None.

(** [new FastCSSSplitWebpackPlugin(c).options], for a [c] that the
    constructor accepts. *)
Definition plugin (c : Config.t) : Options.t :=
  match constructor (collaborators := Sample.collaborators) c with
  | Ok options => options
  | Throw _ => Options.make 0 (λ _, None) (λ _, EmptyString) Js.Undefined false
  end.

(** [chunksMapping] on the build; the first new object gets identity 2. *)
Definition run (options : Options.t)
  : Js.completion (gmap string Source.t * list (list string) * nat) :=
  chunksMapping (collaborators := Sample.collaborators) options compilation chunks 2.

Definition assetsAfter (options : Options.t) : gmap string Source.t :=
  match run options with
  | Ok (table', _, _) => table'
  | Throw _ => ∅
  end.

Definition chunksAfter (options : Options.t) : list (list string) :=
  match run options with
  | Ok (_, chunks', _) => chunks'
  | Throw _ => []
  end.

Definition nextAfter (options : Options.t) : nat :=
  match run options with
  | Ok (_, _, n') => n'
  | Throw _ => 0
  end.

(** [@import "path";] *)
Definition importOf (path : string) : string :=
  "@import " +:+ Js.dquote +:+ path +:+ Js.dquote +:+ ";".

End Scenario.

(** ** Templates

    [s.includes(c)] for a character [c]: whether an interpolated template
    still holds a bracket. *)
Fixpoint hasChar (c : ascii) (s : string) : bool :=
  match s with
  | EmptyString => false
  | String c' s' => Ascii.eqb c' c || hasChar c s'
  end.

(** [s.includes(pat)]: [pat] starts [s] or occurs in its tail. *)
Fixpoint includes (pat s : string) : bool :=
  String.prefix pat s
  || match s with
     | EmptyString => false
     | String _ s' => includes pat s'
     end.

(** ** Other builds

    Variants of the small build: with no style sheet, with a style sheet
    that two chunks share, and with one that is not in the asset table. *)

Module Variants.

Definition scriptsOnly : list (list string) := [["main.js"]].

Definition shared : list (list string) :=
  [["main.js"; "styles.css"]; ["styles.css"]].

Definition withMissing : list (list string) :=
  [["main.js"; "styles.css"]; ["print.css"]].

(** [{ size, filename }] with [imports] and [preserve] left out. *)
Definition named (size : Z) (filename : string) : Config.t :=
  Config.make (Some size) Js.Undefined (Some filename) Js.Undefined None.

(** A build in which a second style sheet has the name that the default
    template gives the first part of [styles.css]. *)
Definition clashing : Compilation :=
  {| compilationAssets :=
       <["styles.css" := Scenario.host 0 "a{}b{}"]>
         (<["styles-1.css" := Scenario.host 1 "c{}d{}"]> ∅);
     publicPath := Some "/foo" |}.

Definition clashingChunks : list (list string) :=
  [["styles.css"; "styles-1.css"]].

(** [file] takes whatever array the splitter returns, also an empty one.
    These collaborators have a splitter that returns no segment. *)
Definition silent : Collaborators :=
  Build_Collaborators (λ _ _, []) Sample.interpolateName Sample.dirname.

End Variants.

(** ** Objects and names

    What is to hold of the objects in an asset table [table] that started
    as [table0], when the objects with an identity from [lo] on are the
    ones created since and [hi] is the next free identity: every identity
    is below [hi], an object created since is under one name only, and an
    older object is where it was in [table0]. *)
Definition tidy (table0 : gmap string Source.t) (lo hi : nat)
    (table : gmap string Source.t) : Prop :=
  (∀ x a, table !! x = Some a → Source.oid a < hi)
  ∧ (∀ x y a b, table !! x = Some a → table !! y = Some b →
       Source.oid a = Source.oid b → lo ≤ Source.oid a → x = y)
  ∧ (∀ x a, table !! x = Some a → Source.oid a < lo → table0 !! x = Some a).

(** The parts that are created but not yet registered: their identities
    differ from one another and from those in the table, and lie between
    [lo] and [hi]. *)
Definition pending (lo hi : nat) (table : gmap string Source.t)
    (parts : list Source.t) : Prop :=
  NoDup (Source.oid <$> parts)
  ∧ ∀ p, p ∈ parts →
      lo ≤ Source.oid p < hi
      ∧ ∀ y b, table !! y = Some b → Source.oid b ≠ Source.oid p.

(** * Properties *)

(** ** Strings *)

Local Arguments String.append !_ _ / : simpl nomatch.

Lemma string_app_nil_r (s : string) : s +:+ EmptyString = s.
Proof. induction s as [|c s IH]; simpl; [done | by rewrite IH]. Qed.

Lemma string_app_assoc (s1 s2 s3 : string) : (s1 +:+ s2) +:+ s3 = s1 +:+ s2 +:+ s3.
Proof. induction s1 as [|c s1 IH]; simpl; [done | by rewrite IH]. Qed.

Lemma endsWith_unfold (suffix s : string) :
  Js.endsWith suffix s =
    String.eqb s suffix
    || match s with
       | EmptyString => false
       | String _ s' => Js.endsWith suffix s'
       end.
Proof. by destruct s. Qed.

Lemma endsWith_spec (suffix s : string) :
  Js.endsWith suffix s = true ↔ ∃ stem, s = stem +:+ suffix.
Proof.
  induction s as [|c s IH]; rewrite endsWith_unfold.
  - rewrite orb_false_r, String.eqb_eq. split.
    + intros <-. by exists EmptyString.
    + intros [[|??] H]; simpl in H; [done | discriminate].
  - rewrite orb_true_iff, String.eqb_eq, IH. split.
    + intros [<- | [stem ->]]; [by exists EmptyString | by exists (String c stem)].
    + intros [[|c' stem] H]; simpl in H; [by left |].
      injection H as -> ->. right. by exists stem.
Qed.

Lemma dropLast_app (stem : string) (c : ascii) :
  Js.dropLast (stem +:+ String c EmptyString) = stem.
Proof.
  induction stem as [|c' stem IH]; [done |].
  change (Js.dropLast (String c' (stem +:+ String c EmptyString)) = String c' stem).
  simpl. destruct (stem +:+ String c EmptyString) eqn:E.
  - destruct stem; discriminate.
  - by rewrite IH.
Qed.

(** [strip] takes one trailing slash off and nothing else. *)
Lemma strip_slash (stem : string) : strip (stem +:+ "/") = stem.
Proof.
  unfold strip.
  assert (Js.endsWith "/" (stem +:+ "/") = true) as -> by (apply endsWith_spec; eauto).
  apply dropLast_app.
Qed.

Lemma strip_other (s : string) : Js.endsWith "/" s = false → strip s = s.
Proof. unfold strip. by intros ->. Qed.

Lemma join_empty_cons (x : string) (xs : list string) :
  Js.join EmptyString (x :: xs) = x +:+ Js.join EmptyString xs.
Proof. destruct xs; unfold Js.join; simpl; [by rewrite string_app_nil_r | done]. Qed.

Lemma join_empty_app (xs ys : list string) :
  Js.join EmptyString (xs ++ ys) = Js.join EmptyString xs +:+ Js.join EmptyString ys.
Proof.
  induction xs as [|x xs IH]; [done |].
  rewrite <- app_comm_cons, !join_empty_cons, IH. by rewrite string_app_assoc.
Qed.

(** ** The splitter: nothing is lost *)

Lemma finish_joined (closed : list string) (current : string) (rules : nat) :
  Js.join EmptyString (Splitter.finish closed current rules)
  = Js.join EmptyString closed +:+ current.
Proof.
  assert (Js.join EmptyString (closed ++ [current])
          = Js.join EmptyString closed +:+ current) as Hplain.
  { rewrite join_empty_app. done. }
  unfold Splitter.finish. destruct rules as [|rules]; [|done].
  destruct (last closed) as [s|] eqn:Hlast; [|done].
  apply last_Some in Hlast as [front ->].
  rewrite removelast_last, !join_empty_app, string_app_assoc.
  done.
Qed.

Lemma scan_joined (text : string) :
  ∀ limit m d closed current rules,
    Js.join EmptyString (Splitter.scan limit m d closed current rules text)
    = Js.join EmptyString closed +:+ current +:+ text.
Proof.
  induction text as [|c rest IH]; intros limit m d closed current rules.
  - simpl. by rewrite finish_joined, string_app_nil_r.
  - simpl. destruct (Splitter.step m d c) as [[m' d'] ends].
    assert ((current +:+ String c EmptyString) +:+ rest = current +:+ String c rest)
      as Hshift by (by rewrite string_app_assoc).
    destruct ends; [destruct (limit <=? Z.of_nat (S rules))%Z |]; rewrite IH.
    + rewrite join_empty_app, string_app_assoc. simpl. by rewrite Hshift.
    + by rewrite Hshift.
    + by rewrite Hshift.
Qed.

(** C9.  For every stylesheet text [T] and every positive limit [L], the
    segments that the splitter returns for [T] and [L], concatenated in
    order, are [T] again, character for character. *)
Theorem split_concat_roundtrip (T : string) (L : Z) :
  (0 < L)%Z → Js.join EmptyString (Splitter.split T L) = T.
Proof. intros _. unfold Splitter.split. by rewrite scan_joined. Qed.

(** ** Lists *)

(** Membership in an appended or a one-element list, taken apart in the
    hypotheses. *)
Ltac split_elem :=
  repeat match goal with
  | H : context [_ ∈ _ ++ _] |- _ => rewrite elem_of_app in H
  | H : context [_ ∈ [_]] |- _ => rewrite list_elem_of_singleton in H
  end.

(** ** The allocation monad *)

Lemma bind_Ok {A B} (m : M A) (f : A → M B) (n n' : nat) (b : B) :
  (m ≫= f) n = Ok (b, n') ↔ ∃ a n1, m n = Ok (a, n1) ∧ f a n1 = Ok (b, n').
Proof.
  unfold mbind, M_bind. split.
  - destruct (m n) as [[a n1]|e]; [eauto | discriminate].
  - by intros (a & n1 & -> & ?).
Qed.

Lemma bind_step {A B} (m : M A) (f : A → M B) (n n1 : nat) (a : A) :
  m n = Ok (a, n1) → (m ≫= f) n = f a n1.
Proof. unfold mbind, M_bind. by intros ->. Qed.

(** ** Construction *)

Section Construction.

Context {collaborators : Collaborators}.

Lemma constructor_Ok (c : Config.t) (options : Options.t) :
  constructor c = Ok options →
  Options.size options = default 4000%Z (Config.size c)
  ∧ Options.filename options
    = nameInterpolator (default "[name]-[part].[ext]" (Config.filename c))
  ∧ Options.preserve options = Config.preserve c
  ∧ Options.defer options = default false (Config.defer c).
Proof.
  unfold constructor.
  destruct (normalizeImports _ _); [|discriminate].
  by intros [= <-].
Qed.

(** The imports policy that [imports: false] and a missing [imports]
    give: no name for any entry. *)
Lemma constructor_imports_false (c : Config.t) (options : Options.t) :
  constructor c = Ok options →
  Config.imports c = Js.Boolean false ∨ Config.imports c = Js.Undefined →
  ∀ a, Options.imports options a = None.
Proof.
  unfold constructor. intros H [Hi | Hi]; rewrite Hi in H; simpl in H;
    by injection H as <-.
Qed.

(** C3, as the code has it.  Construction throws a TypeError exactly when
    the type of [imports] is none of string, boolean and undefined, and it
    returns the plugin exactly when the type is one of these: an
    [undefined] (or missing) [imports] takes the default [false].  The
    check is part of construction; no manifest is involved. *)
Theorem constructor_checks_imports (c : Config.t) :
  (constructor c = Throw TypeError
   ↔ Js.typeof (Config.imports c) ∉ ["string"; "boolean"; "undefined"])
  ∧ ((∃ options, constructor c = Ok options)
     ↔ Js.typeof (Config.imports c) ∈ ["string"; "boolean"; "undefined"]).
Proof.
  unfold constructor.
  destruct (Config.imports c) as [| |[|]| | | |]; simpl;
    try destruct (Js.truthy (Config.preserve c)).
  all: split; split; intros H.
  all: try discriminate H; try (destruct H; discriminate H).
  all: try compute_done; try (by eexists).
  all: first [ exfalso; apply H; compute_done
             | exfalso; revert H; change (?P → False) with (¬ P); compute_done ].
Qed.

End Construction.

(** ** One asset *)

Section Asset.

Context {collaborators : Collaborators}.
Variable options : Options.t.

Lemma mapiM_alloc {A B} (f : nat → A → M B) (g : nat → nat → A → B) :
  (∀ i x n, f i x n = Ok (g i n x, S n)) →
  ∀ xs i n,
    mapiM f i xs n = Ok (imap (λ k x, g (i + k) (n + k) x) xs, n + length xs).
Proof.
  intros Hf. induction xs as [|x xs IH]; intros i n; simpl.
  - unfold mret, M_ret. by rewrite Nat.add_0_r.
  - rewrite (bind_step _ _ _ _ _ (Hf i x n)).
    rewrite (bind_step _ _ _ _ _ (IH (S i) (S n))).
    unfold mret, M_ret. rewrite !Nat.add_0_r.
    replace (n + S (length xs)) with (S n + length xs) by lia.
    do 3 f_equal. apply imap_ext. intros k y _. simpl. f_equal; lia.
Qed.

(** [file] on an asset that is there: one part for each segment, with
    consecutive identities. *)
Lemma file_Ok (key : string) (asset : Source.t) (n : nat) :
  let source := Source.value asset in
  let parts := split source (Options.size options) in
  file options key (Some asset) n
  = Ok (Entry.make (dirname key) key (imap (partAt options key source n) parts),
        n + length parts).
Proof.
  simpl. unfold file.
  erewrite bind_step; [reflexivity |].
  rewrite (mapiM_alloc _
    (λ i n part, Source.make n part
       (Some (Options.filename options
                (NameArgs.make key (Source.value asset) (Some i))))
       (Some (inDir (dirname key)
                (Options.filename options
                   (NameArgs.make key (Source.value asset) (Some i))))))).
  - done.
  - intros i x k. reflexivity.
Qed.

Lemma file_missing (key : string) (n : nat) :
  file options key None n = Throw TypeError.
Proof. reflexivity. Qed.

Lemma file_inv (key : string) (asset : option Source.t) (n n' : nat) (e : Entry.t) :
  file options key asset n = Ok (e, n') →
  ∃ a, asset = Some a
       ∧ e = Entry.make (dirname key) key
               (imap (partAt options key (Source.value a) n)
                  (split (Source.value a) (Options.size options)))
       ∧ n' = n + length (split (Source.value a) (Options.size options)).
Proof.
  destruct asset as [a|]; [|discriminate].
  rewrite file_Ok. intros [= <- <-]. eauto.
Qed.

(** The body of the loop over the entries never throws; it allocates the
    imports file unless the entry has one chunk. *)
Lemma forEntry_Ok (pub : string) (e : Entry.t) (m : Manifest) (n : nat) :
  forEntry options pub e m n
  = Ok (registerImports options e (importsFileAt pub e n)
          (dropOriginal options e (injectAll e m)),
        match Entry.chunks e with [_] => n | _ => S n end).
Proof.
  unfold forEntry, importsFileOf, importsFileAt, injectAll, importsContent.
  destruct (Entry.chunks e) as [|p [|q r]]; reflexivity.
Qed.

Lemma importsFileAt_value (pub : string) (e : Entry.t) (n : nat) :
  Source.value (importsFileAt pub e n) = importsContent pub e.
Proof.
  unfold importsFileAt, importsContent.
  by destruct (Entry.chunks e) as [|p [|q r]].
Qed.

Lemma registerImports_names (pub : string) (e : Entry.t) (n : nat) (m : Manifest) :
  registerImports options e (importsFileAt pub e n) m
  = match importsName options pub e with
    | name :: _ =>
        {| assets := <[name := importsFileAt pub e n]> (assets m);
           files := files m ++ [name] |}
    | [] => m
    end.
Proof.
  unfold registerImports, importsName. rewrite importsFileAt_value.
  destruct (Options.imports options _) as [nm|]; [|done].
  by destruct (String.eqb nm EmptyString).
Qed.

Lemma inject_files (ps : list Source.t) (m : Manifest) :
  files (foldl (λ m file, inject file m) m ps)
  = files m ++ ((λ file, Js.text (Source.fullname file)) <$> ps).
Proof.
  revert m. induction ps as [|p ps IH]; intros m; simpl.
  - by rewrite List.app_nil_r.
  - rewrite IH. simpl. by rewrite <- List.app_assoc.
Qed.

Lemma inject_assets_other (ps : list Source.t) (m : Manifest) (name : string) :
  name ∉ (λ file, Js.text (Source.fullname file)) <$> ps →
  assets (foldl (λ m file, inject file m) m ps) !! name = assets m !! name.
Proof.
  revert m. induction ps as [|p ps IH]; intros m Hname; simpl; [done |].
  rewrite fmap_cons, not_elem_of_cons in Hname. destruct Hname as [Hp Hps].
  rewrite IH by done. simpl. by rewrite lookup_insert_ne.
Qed.

Lemma inject_assets_last (ps : list Source.t) (p : Source.t) (m : Manifest) :
  assets (foldl (λ m file, inject file m) m (ps ++ [p]))
    !! Js.text (Source.fullname p) = Some p.
Proof. rewrite foldl_app. simpl. by rewrite lookup_insert_eq. Qed.

Lemma injectAll_files (e : Entry.t) (m : Manifest) :
  files (injectAll e m) = files m ++ partNames e.
Proof.
  unfold injectAll, partNames.
  destruct (Entry.chunks e) as [|p [|q r]];
    [by rewrite List.app_nil_r | by rewrite List.app_nil_r |].
  apply inject_files.
Qed.

Lemma injectAll_assets_other (e : Entry.t) (m : Manifest) (name : string) :
  name ∉ partNames e → assets (injectAll e m) !! name = assets m !! name.
Proof.
  unfold injectAll, partNames.
  destruct (Entry.chunks e) as [|p [|q r]]; [done | done |].
  apply inject_assets_other.
Qed.

End Asset.

(** ** What the specification says of one asset *)

Section AssetProperties.

Context {collaborators : Collaborators}.

Lemma hasDir_spec (d : string) :
  hasDir d = bool_decide (d ≠ EmptyString ∧ d ≠ ".").
Proof.
  unfold hasDir. case_bool_decide as H.
  - destruct H as [H1 H2]. apply String.eqb_neq in H1, H2. by rewrite H1, H2.
  - destruct (String.eqb_spec d EmptyString) as [|H1]; [done |].
    destruct (String.eqb_spec d ".") as [|H2]; [done |].
    exfalso. by apply H.
Qed.


(** C5, as the code has it.  The import statement of a part named [name]
    with the full path [fullname]: when a public path is configured and is
    not the empty string, [base] is that path without its one trailing
    slash, if it has one, and the statement refers to [./name] if [base]
    starts with a dot and to [base/fullname] otherwise; when no public
    path is configured, or the configured one is the empty string, the
    statement refers to [./name]. *)
Theorem import_statement_form (compilation : Compilation)
    (id : nat) (content name fullname : string) :
  let part := Source.make id content (Some name) (Some fullname) in
  let statement := importStatement (publicPathOf compilation) part in
  let relative := "@import " +:+ Js.dquote +:+ "./" +:+ name +:+ Js.dquote +:+ ";" in
  let absolute base :=
    "@import " +:+ Js.dquote +:+ base +:+ "/" +:+ fullname +:+ Js.dquote +:+ ";" in
  match publicPath compilation with
  | Some p =>
      if bool_decide (p = EmptyString) then statement = relative
      else
        let base := strip p in
        (∀ stem, p = stem +:+ "/" → base = stem)
        ∧ (Js.endsWith "/" p = false → base = p)
        ∧ statement = if Js.startsWith "." base then relative else absolute base
  | None => statement = relative
  end.
Proof.
  simpl. unfold publicPathOf, importStatement.
  destruct (publicPath compilation) as [p|]; [|reflexivity].
  destruct (String.eqb_spec p EmptyString) as [-> | Hp].
  - reflexivity.
  - rewrite bool_decide_eq_false_2 by done.
    split; [|split].
    + intros stem ->. apply strip_slash.
    + apply strip_other.
    + simpl. by destruct (Js.startsWith "." (strip p)).
Qed.

Lemma partAt_fullnames (options : Options.t) (key source : string) (n : nat)
    (segments : list string) :
  (λ file, Js.text (Source.fullname file)) <$> imap (partAt options key source n) segments
  = (λ i, inDir (dirname key)
            (Options.filename options (NameArgs.make key source (Some i))))
      <$> seq 0 (length segments).
Proof.
  apply list_eq. intros i.
  rewrite !list_lookup_fmap, list_lookup_imap.
  destruct (segments !! i) as [x|] eqn:Hx; simpl.
  - rewrite lookup_seq_lt by (by eapply lookup_lt_Some). done.
  - rewrite lookup_seq_ge by (by apply lookup_ge_None). done.
Qed.


End AssetProperties.

(** ** A chunk *)

Section Chunk.

Context {collaborators : Collaborators}.
Variable options : Options.t.
Variable pub : string.

Abbreviation registered := (registeredNames options pub).
Abbreviation dropped := (droppedNames options).

Lemma mapiM_file (table : gmap string Source.t) (input : list string) :
  ∀ i n es n',
    mapiM (λ _ name, file options name (table !! name)) i input n = Ok (es, n') →
    Entry.file <$> es = input ∧ Forall (builtFrom options table) es.
Proof.
  induction input as [|name input IH]; intros i n es n'; simpl.
  - intros [= <- <-]. by split.
  - intros (e & n1 & He & H)%bind_Ok.
    apply bind_Ok in H as (es1 & n2 & Hes & [= <- <-]).
    apply file_inv in He as (a & Ha & -> & ->).
    destruct (IH _ _ _ _ Hes) as [<- Hall].
    split; [done |]. constructor; [|done].
    exists a, n. by split.
Qed.

Lemma entriesFor_inv (m : Manifest) (n n' : nat) (es : list Entry.t) :
  entriesFor options m n = Ok (es, n') →
  Entry.file <$> es = filter (λ name, isCSS name = true) (files m)
  ∧ Forall (builtFrom options (assets m)) es.
Proof. apply mapiM_file. Qed.

Lemma forEach_cons (e : Entry.t) (es : list Entry.t) (m : Manifest) (n : nat) :
  forEachM (forEntry options pub) (e :: es) m n
  = forEachM (forEntry options pub) es
      (registerImports options e (importsFileAt pub e n)
         (dropOriginal options e (injectAll e m)))
      (match Entry.chunks e with [_] => n | _ => S n end).
Proof. simpl. erewrite bind_step; [done | apply forEntry_Ok]. Qed.

(** The loop over the entries of a chunk never throws. *)
Lemma forEach_total (es : list Entry.t) (m : Manifest) (n : nat) :
  ∃ m' n', forEachM (forEntry options pub) es m n = Ok (m', n').
Proof.
  revert m n. induction es as [|e es IH]; intros m n.
  - by exists m, n.
  - rewrite forEach_cons. apply IH.
Qed.

Lemma importsName_cases (e : Entry.t) :
  importsName options pub e = [] ∨ ∃ name, importsName options pub e = [name].
Proof.
  unfold importsName. destruct (Options.imports options _) as [nm|]; [|by left].
  destruct (String.eqb nm EmptyString); [by left | right; eauto].
Qed.

Lemma dropped_cons (e : Entry.t) (es : list Entry.t) :
  dropped (e :: es)
  = (if isDropped options e then [Entry.file e] else []) ++ dropped es.
Proof.
  unfold droppedNames. rewrite filter_cons. case_decide as H.
  - by rewrite H.
  - by destruct (isDropped options e).
Qed.

(** The table after one entry, at a name that the entry registers
    nothing under. *)
Lemma entry_assets_other (e : Entry.t) (m : Manifest) (n : nat) (name : string) :
  name ∉ registered e →
  assets (registerImports options e (importsFileAt pub e n)
            (dropOriginal options e (injectAll e m))) !! name
  = if bool_decide (isDropped options e = true ∧ name = Entry.file e)
    then None else assets m !! name.
Proof.
  unfold registeredNames. rewrite not_elem_of_app. intros [Hparts Himports].
  assert (assets (dropOriginal options e (injectAll e m)) !! name
          = if bool_decide (isDropped options e = true ∧ name = Entry.file e)
            then None else assets m !! name) as Hdrop.
  { unfold dropOriginal. fold (isDropped options e).
    destruct (isDropped options e).
    - cbn [assets]. case_bool_decide as H.
      + destruct H as [_ ->]. apply lookup_delete_eq.
      + rewrite lookup_delete_ne by (intros <-; by apply H).
        by apply injectAll_assets_other.
    - rewrite bool_decide_eq_false_2 by (by intros [? _]).
      by apply injectAll_assets_other. }
  rewrite registerImports_names.
  destruct (importsName_cases e) as [-> | [nm Hnm]]; [done |].
  rewrite Hnm in *. simpl.
  rewrite lookup_insert_ne; [done |]. set_solver.
Qed.

(** The table after the loop, at a name that no entry registers anything
    under: gone if the original of that name was dropped, as before
    otherwise. *)
Lemma forEach_assets_other (es : list Entry.t) (name : string) :
  ∀ m n m' n',
    forEachM (forEntry options pub) es m n = Ok (m', n') →
    name ∉ es ≫= registered →
    assets m' !! name
    = if bool_decide (name ∈ dropped es) then None else assets m !! name.
Proof.
  induction es as [|e es IH]; intros m n m' n'.
  - intros [= <- <-] _. by rewrite bool_decide_eq_false_2 by set_solver.
  - rewrite forEach_cons, bind_cons, not_elem_of_app. intros Hrun [He Hes].
    rewrite (IH _ _ _ _ Hrun Hes), entry_assets_other by done.
    rewrite dropped_cons.
    destruct (isDropped options e).
    + repeat case_bool_decide; try done; exfalso; split_elem; tauto.
    + by rewrite (bool_decide_eq_false_2 (false = true ∧ _)) by (by intros [? _]).
Qed.

Lemma indexOf_elem (x : string) (l : list string) :
  x ∈ l → ∃ i, indexOf x l = Some i ∧ l !! i = Some x.
Proof.
  induction l as [|y l IH]; [by intros ?%elem_of_nil |].
  intros Hx. simpl. case_decide as Hy.
  - subst y. by exists 0.
  - apply elem_of_cons in Hx as [-> | Hx]; [done |].
    destruct (IH Hx) as (i & -> & Hi). by exists (S i).
Qed.

(** [splice] takes out the element that [indexOf] found, when there is
    one. *)
Lemma splice1_indexOf (x : string) (l : list string) :
  x ∈ l → x :: splice1 (indexOf x l) l ≡ₚ l.
Proof.
  intros (i & -> & Hi)%indexOf_elem. simpl.
  symmetry. by apply delete_Permutation.
Qed.

(** The file list after one entry. *)
Lemma entry_files (e : Entry.t) (m : Manifest) (n : nat) :
  (isDropped options e = true → Entry.file e ∈ files m) →
  (if isDropped options e then [Entry.file e] else [])
  ++ files (registerImports options e (importsFileAt pub e n)
              (dropOriginal options e (injectAll e m)))
  ≡ₚ files m ++ registered e.
Proof.
  intros Hin.
  assert ((if isDropped options e then [Entry.file e] else [])
          ++ files (dropOriginal options e (injectAll e m))
          ≡ₚ files m ++ partNames e) as Hdrop.
  { unfold dropOriginal. fold (isDropped options e).
    destruct (isDropped options e); cbn [files app].
    - rewrite injectAll_files. apply splice1_indexOf.
      apply elem_of_app. left. by apply Hin.
    - by rewrite injectAll_files. }
  rewrite registerImports_names. unfold registeredNames.
  destruct (importsName_cases e) as [-> | [nm ->]].
  - by rewrite List.app_nil_r.
  - cbn [files]. by rewrite !List.app_assoc, Hdrop.
Qed.

(** The file list after the loop: what was there and what the entries
    registered, less the originals that were dropped. *)
Lemma forEach_files (es : list Entry.t) :
  ∀ m n m' n',
    forEachM (forEntry options pub) es m n = Ok (m', n') →
    dropped es ⊆+ files m →
    dropped es ++ files m' ≡ₚ files m ++ (es ≫= registered).
Proof.
  induction es as [|e es IH]; intros m n m' n'.
  - intros [= <- <-] _. simpl. by rewrite List.app_nil_r.
  - rewrite forEach_cons, bind_cons, dropped_cons. intros Hrun Hsub.
    set (m1 := registerImports options e (importsFileAt pub e n)
                 (dropOriginal options e (injectAll e m))) in *.
    assert ((if isDropped options e then [Entry.file e] else [])
            ++ files m1 ≡ₚ files m ++ registered e) as Hstep.
    { apply entry_files. intros Hd. rewrite Hd in Hsub.
      eapply elem_of_submseteq; [|exact Hsub]. set_solver. }
    assert (dropped es ⊆+ files m1) as Hsub1.
    { apply (submseteq_app_inv_l _ _
               (if isDropped options e then [Entry.file e] else [])).
      rewrite Hstep. by apply submseteq_inserts_r. }
    rewrite <- List.app_assoc.
    rewrite (IH _ _ _ _ Hrun Hsub1).
    by rewrite !List.app_assoc, Hstep.
Qed.

(** A chunk, taken apart: the entries that are built, and the loop over
    them. *)
Lemma forChunk_inv (m m' : Manifest) (n n' : nat) :
  forChunk options pub m n = Ok (m', n') →
  ∃ es n1,
    entriesFor options m n = Ok (es, n1)
    ∧ forEachM (forEntry options pub) es m n1 = Ok (m', n')
    ∧ Entry.file <$> es = filter (λ name, isCSS name = true) (files m)
    ∧ Forall (builtFrom options (assets m)) es
    ∧ dropped es ⊆+ files m.
Proof.
  intros (es & n1 & Hes & Hrun)%bind_Ok.
  destruct (entriesFor_inv _ _ _ _ Hes) as [Hfiles Hall].
  exists es, n1. repeat split; try done.
  unfold droppedNames.
  transitivity (Entry.file <$> es).
  - apply sublist_submseteq, fmap_sublist, sublist_filter.
  - rewrite Hfiles. apply sublist_submseteq, sublist_filter.
Qed.

End Chunk.

(** ** A run over all chunks *)

Section Run.

Context {collaborators : Collaborators}.
Variable options : Options.t.
Variable pub : string.

Abbreviation registered := (registeredNames options pub).
Abbreviation dropped := (droppedNames options).
Abbreviation entries := (processed options pub).

Lemma dropped_app (es1 es2 : list Entry.t) :
  dropped (es1 ++ es2) = dropped es1 ++ dropped es2.
Proof. unfold droppedNames. by rewrite filter_app, fmap_app. Qed.

Lemma join_cons {A} (l : list A) (ls : list (list A)) :
  mjoin (l :: ls) = l ++ mjoin ls.
Proof. reflexivity. Qed.

Lemma forChunks_cons_inv (table table' : gmap string Source.t)
    (fs : list string) (rest chunks' : list (list string)) (n n' : nat) :
  forChunks options pub table (fs :: rest) n = Ok ((table', chunks'), n') →
  ∃ m n1 rest' es,
    forChunk options pub {| assets := table; files := fs |} n = Ok (m, n1)
    ∧ forChunks options pub (assets m) rest n1 = Ok ((table', rest'), n')
    ∧ chunks' = files m :: rest'
    ∧ entries table (fs :: rest) n = es :: entries (assets m) rest n1
    ∧ Entry.file <$> es = filter (λ name, isCSS name = true) fs
    ∧ Forall (builtFrom options table) es
    ∧ dropped es ++ files m ≡ₚ fs ++ (es ≫= registered)
    ∧ (∀ name, name ∉ es ≫= registered →
         assets m !! name
         = if bool_decide (name ∈ dropped es) then None else table !! name).
Proof.
  simpl. intros (m & n1 & Hchunk & H)%bind_Ok.
  apply bind_Ok in H as ([table1 rest'] & n2 & Hrest & [= <- <- <-]).
  destruct (forChunk_inv _ _ _ _ _ _ Hchunk)
    as (es & n0 & Hes & Hloop & Hfiles & Hbuilt & Hsub).
  exists m, n1, rest', es. rewrite Hes, Hloop.
  repeat split; try done.
  - by apply (forEach_files options pub es _ _ _ _ Hloop).
  - intros name Hname.
    by apply (forEach_assets_other options pub es name _ _ _ _ Hloop).
Qed.

Lemma run_lengths (chunks : list (list string)) :
  ∀ table n table' chunks' n',
    forChunks options pub table chunks n = Ok ((table', chunks'), n') →
    length chunks' = length chunks
    ∧ length (entries table chunks n) = length chunks.
Proof.
  induction chunks as [|fs rest IH]; intros table n table' chunks' n'.
  - by intros [= <- <- <-].
  - intros (m & n1 & rest' & es & _ & Hrest & -> & -> & _)%forChunks_cons_inv.
    destruct (IH _ _ _ _ _ Hrest) as [H1 H2]. simpl. by rewrite H1, H2.
Qed.

(** The table after a run, at a name under which the run registers
    nothing. *)
Lemma run_assets (chunks : list (list string)) (name : string) :
  ∀ table n table' chunks' n',
    forChunks options pub table chunks n = Ok ((table', chunks'), n') →
    name ∉ mjoin (entries table chunks n) ≫= registered →
    table' !! name
    = if bool_decide (name ∈ dropped (mjoin (entries table chunks n)))
      then None else table !! name.
Proof.
  induction chunks as [|fs rest IH]; intros table n table' chunks' n'.
  - intros [= <- <- <-] _. by rewrite bool_decide_eq_false_2 by set_solver.
  - intros (m & n1 & rest' & es & _ & Hrest & -> & -> & _ & _ & _ & Hm)
      %forChunks_cons_inv.
    rewrite join_cons, bind_app, dropped_app, not_elem_of_app.
    intros [Hes Hlater].
    rewrite (IH _ _ _ _ _ Hrest Hlater), (Hm name Hes).
    repeat case_bool_decide; try done; exfalso; split_elem; tauto.
Qed.

(** One chunk of a run: its entries, its file list afterwards, and the
    table [table_k] that its entries were built from. *)
Lemma run_chunk (chunks : list (list string)) :
  ∀ table n table' chunks' n' k fs,
    forChunks options pub table chunks n = Ok ((table', chunks'), n') →
    chunks !! k = Some fs →
    ∃ fs' es table_k,
      chunks' !! k = Some fs'
      ∧ entries table chunks n !! k = Some es
      ∧ Entry.file <$> es = filter (λ name, isCSS name = true) fs
      ∧ Forall (builtFrom options table_k) es
      ∧ dropped es ++ fs' ≡ₚ fs ++ (es ≫= registered)
      ∧ (∀ name, name ∉ mjoin (entries table chunks n) ≫= registered →
           table_k !! name = table !! name ∨ table_k !! name = None).
Proof.
  induction chunks as [|fs0 rest IH]; intros table n table' chunks' n' k fs;
    [by intros _ [=] |].
  intros (m & n1 & rest' & es & _ & Hrest & -> & -> & Hfs & Hbuilt & Hperm & Hm)
    %forChunks_cons_inv.
  destruct k as [|k]; simpl.
  - intros [= <-]. exists (files m), es, table. repeat split; try done. by left.
  - intros Hk.
    destruct (IH _ _ _ _ _ _ _ Hrest Hk)
      as (fs' & es' & table_k & ? & ? & ? & ? & ? & Hk').
    exists fs', es', table_k. repeat split; try done.
    intros name. rewrite ?join_cons, bind_app, not_elem_of_app.
    intros [Hes Hlater].
    destruct (Hk' name Hlater) as [-> | ->]; [|by right].
    rewrite (Hm name Hes). case_bool_decide; [by right | by left].
Qed.

Lemma run_entry (chunks : list (list string)) :
  ∀ table n table' chunks' n' e,
    forChunks options pub table chunks n = Ok ((table', chunks'), n') →
    e ∈ mjoin (entries table chunks n) →
    ∃ k fs es, chunks !! k = Some fs
               ∧ entries table chunks n !! k = Some es ∧ e ∈ es.
Proof.
  intros table n table' chunks' n' e Hrun (es & He & Hes)%list_elem_of_join.
  apply list_elem_of_lookup in Hes as [k Hk].
  destruct (run_lengths _ _ _ _ _ _ Hrun) as [_ Hlen].
  destruct (lookup_lt_is_Some_2 chunks k) as [fs Hfs].
  { rewrite <- Hlen. by eapply lookup_lt_Some. }
  by exists k, fs, es.
Qed.

(** Only style sheets are made entries. *)
Lemma run_entry_css (chunks : list (list string)) :
  ∀ table n table' chunks' n' e,
    forChunks options pub table chunks n = Ok ((table', chunks'), n') →
    e ∈ mjoin (entries table chunks n) →
    isCSS (Entry.file e) = true.
Proof.
  intros table n table' chunks' n' e Hrun He.
  destruct (run_entry _ _ _ _ _ _ _ Hrun He) as (k & fs & es & Hfs & Hes & Hin).
  destruct (run_chunk _ _ _ _ _ _ _ _ Hrun Hfs)
    as (fs' & es' & table_k & _ & Hes' & Hfiles & _).
  rewrite Hes in Hes'. injection Hes' as <-.
  assert (Entry.file e ∈ Entry.file <$> es) as H by (by apply list_elem_of_fmap_2).
  rewrite Hfiles in H. by apply list_elem_of_filter in H as [? _].
Qed.

End Run.

(** ** What stays in the table *)

Section Staying.

Context {collaborators : Collaborators}.
Variable options : Options.t.
Variable pub : string.

Lemma inject_assets_some (ps : list Source.t) (x : string) :
  ∀ m, is_Some (assets m !! x)
       ∨ x ∈ (λ file, Js.text (Source.fullname file)) <$> ps →
       is_Some (assets (foldl (λ m file, inject file m) m ps) !! x).
Proof.
  induction ps as [|p ps IH]; intros m; simpl.
  - intros [? | ?%elem_of_nil]; done.
  - intros H. apply IH. simpl.
    destruct (decide (Js.text (Source.fullname p) = x)) as [<- | Hne].
    + left. by rewrite lookup_insert_eq.
    + rewrite lookup_insert_ne by done.
      destruct H as [? | [? | ?]%elem_of_cons]; [by left | done | by right].
Qed.

(** A name that has an object before an entry, or gets one from it, has
    one after it, unless the entry drops it. *)
Lemma entry_assets_stay (e : Entry.t) (m : Manifest) (n : nat) (x : string) :
  ¬ (isDropped options e = true ∧ x = Entry.file e) →
  is_Some (assets m !! x) ∨ x ∈ registeredNames options pub e →
  is_Some (assets (registerImports options e (importsFileAt pub e n)
                     (dropOriginal options e (injectAll e m))) !! x).
Proof.
  intros Hkeep Hx. rewrite registerImports_names.
  assert (x ∈ importsName options pub e
          ∨ is_Some (assets (dropOriginal options e (injectAll e m)) !! x)) as H.
  { unfold registeredNames in Hx. rewrite elem_of_app in Hx.
    destruct Hx as [Hm | [Hp | Hi]]; [| |by left]; right.
    - unfold dropOriginal. fold (isDropped options e).
      destruct (isDropped options e) eqn:Hd; cbn [assets].
      + rewrite lookup_delete_ne by (intros <-; by apply Hkeep).
        unfold injectAll. destruct (Entry.chunks e) as [|p [|q r]]; try done.
        apply inject_assets_some. by left.
      + unfold injectAll. destruct (Entry.chunks e) as [|p [|q r]]; try done.
        apply inject_assets_some. by left.
    - unfold dropOriginal. fold (isDropped options e).
      assert (is_Some (assets (injectAll e m) !! x)) as Hin.
      { revert Hp. unfold injectAll, partNames.
        destruct (Entry.chunks e) as [|p [|q r]];
          [by intros ?%elem_of_nil | by intros ?%elem_of_nil |].
        intros Hp. apply inject_assets_some. by right. }
      destruct (isDropped options e) eqn:Hd; cbn [assets]; [|done].
      by rewrite lookup_delete_ne by (intros <-; by apply Hkeep). }
  destruct (importsName_cases options pub e) as [Hnone | [nm Hnm]].
  - rewrite Hnone in *. destruct H as [?%elem_of_nil | ?]; done.
  - rewrite Hnm in *. cbn [assets].
    destruct (decide (nm = x)) as [-> | Hne].
    + by rewrite lookup_insert_eq.
    + rewrite lookup_insert_ne by done.
      destruct H as [?%list_elem_of_singleton | ?]; [congruence | done].
Qed.

Lemma forEach_assets_stay (es : list Entry.t) (x : string) :
  ∀ m n m' n',
    forEachM (forEntry options pub) es m n = Ok (m', n') →
    x ∉ droppedNames options es →
    is_Some (assets m !! x) ∨ x ∈ es ≫= registeredNames options pub →
    is_Some (assets m' !! x).
Proof.
  induction es as [|e es IH]; intros m n m' n'.
  - intros [= <- <-] _ [? | ?%elem_of_nil]; done.
  - rewrite forEach_cons, dropped_cons, bind_cons, not_elem_of_app, elem_of_app.
    intros Hrun [Hd Hds] Hx. apply (IH _ _ _ _ Hrun Hds).
    destruct Hx as [Hx | [Hx | Hx]]; [left | left | by right].
    + apply entry_assets_stay; [|by left].
      intros [He ->]. rewrite He in Hd. apply Hd. by left.
    + apply entry_assets_stay; [|by right].
      intros [He ->]. rewrite He in Hd. apply Hd. by left.
Qed.

Lemma run_assets_stay (chunks : list (list string)) (x : string) :
  ∀ table n table' chunks' n',
    forChunks options pub table chunks n = Ok ((table', chunks'), n') →
    x ∉ droppedNames options (mjoin (processed options pub table chunks n)) →
    is_Some (table !! x)
    ∨ x ∈ mjoin (processed options pub table chunks n) ≫= registeredNames options pub →
    is_Some (table' !! x).
Proof.
  induction chunks as [|fs rest IH]; intros table n table' chunks' n'.
  - intros [= <- <- <-] _ [? | ?%elem_of_nil]; done.
  - simpl. intros (m & n1 & Hchunk & H)%bind_Ok.
    apply bind_Ok in H as ([table1 rest'] & n2 & Hrest & [= <- <- <-]).
    destruct (forChunk_inv _ _ _ _ _ _ Hchunk) as (es & n0 & Hes & Hloop & _).
    rewrite Hes, Hloop, join_cons, dropped_app, bind_app, not_elem_of_app, elem_of_app.
    intros [Hd Hds] Hx. apply (IH _ _ _ _ _ Hrest Hds).
    destruct Hx as [Hx | [Hx | Hx]]; [left | left | by right].
    + apply (forEach_assets_stay es x _ _ _ _ Hloop Hd). by left.
    + apply (forEach_assets_stay es x _ _ _ _ Hloop Hd). by right.
Qed.

End Staying.

(** ** What the specification says of a run *)

Section RunProperties.

Context {collaborators : Collaborators}.
Variable options : Options.t.

Lemma dropped_preserve (es : list Entry.t) :
  Js.truthy (Options.preserve options) = true → droppedNames options es = [].
Proof.
  intros Hp. unfold droppedNames.
  induction es as [|e es IH]; [done |].
  rewrite filter_cons, decide_False; [done |].
  unfold isDropped. rewrite Hp, andb_false_r. done.
Qed.

Lemma built_lookup (table : gmap string Source.t) (es : list Entry.t) (e : Entry.t) :
  Forall (builtFrom options table) es → e ∈ es →
  ∃ a, table !! Entry.file e = Some a
       ∧ length (Entry.chunks e)
         = length (split (Source.value a) (Options.size options)).
Proof.
  rewrite Forall_forall. intros Hall He.
  destruct (Hall e He) as (a & n & Ha & Heq).
  exists a. split; [done |]. rewrite Heq at 1. simpl. apply length_imap.
Qed.

(** C7, as the code has it.  With [preserve] set, a style sheet [name]
    that a chunk lists is, when [chunksMapping] has returned, still in the
    asset table and still in the file list of its chunk.  When the run
    registers no part and no imports file under [name], the table holds
    under it the object it held before, hence the same content. *)
Theorem original_preserved (compilation : Compilation)
    (chunks chunks' : list (list string)) (assets' : gmap string Source.t)
    (n n' k : nat) (fs : list string) (name : string) :
  Js.truthy (Options.preserve options) = true →
  chunksMapping options compilation chunks n = Ok ((assets', chunks'), n') →
  chunks !! k = Some fs →
  name ∈ fs →
  isCSS name = true →
  ∃ fs',
    is_Some (assets' !! name)
    ∧ chunks' !! k = Some fs'
    ∧ name ∈ fs'
    ∧ (name ∉ namesRegistered options compilation chunks n →
       ∃ asset,
         compilationAssets compilation !! name = Some asset
         ∧ assets' !! name = Some asset).
Proof.
  unfold chunksMapping, namesRegistered, entriesOf.
  intros Hp Hrun Hk Hin Hcss.
  destruct (run_chunk _ _ _ _ _ _ _ _ _ _ Hrun Hk)
    as (fs' & es & table_k & Hfs' & Hes & Hfiles & Hbuilt & Hperm & Htable).
  assert (name ∈ Entry.file <$> es) as He.
  { rewrite Hfiles. by apply list_elem_of_filter. }
  apply list_elem_of_fmap in He as (e & -> & He).
  destruct (built_lookup _ _ _ Hbuilt He) as (a & Ha & _).
  assert (Entry.file e
          ∉ mjoin (processed options (publicPathOf compilation)
                     (compilationAssets compilation) chunks n)
              ≫= registeredNames options (publicPathOf compilation) →
          compilationAssets compilation !! Entry.file e = Some a
          ∧ assets' !! Entry.file e = Some a) as Hsame.
  { intros Hname.
    assert (compilationAssets compilation !! Entry.file e = Some a) as Hbefore.
    { destruct (Htable _ Hname) as [H | H]; rewrite H in Ha; [done | discriminate]. }
    split; [done |].
    rewrite (run_assets _ _ _ _ _ _ _ _ _ Hrun Hname), dropped_preserve by done.
    by rewrite bool_decide_eq_false_2 by (by intros ?%elem_of_nil). }
  exists fs'. split; [|split; [done |]; split].
  - apply (run_assets_stay _ _ _ _ _ _ _ _ _ Hrun).
    + rewrite dropped_preserve by done. by intros ?%elem_of_nil.
    + destruct (decide (Entry.file e
                        ∈ mjoin (processed options (publicPathOf compilation)
                                   (compilationAssets compilation) chunks n)
                            ≫= registeredNames options (publicPathOf compilation)))
        as [Hreg | Hname]; [by right | left].
      destruct (Hsame Hname) as [-> _]. by eexists.
  - rewrite dropped_preserve in Hperm by done. simpl in Hperm.
    rewrite Hperm. apply elem_of_app. by left.
  - intros Hname. exists a. by apply Hsame.
Qed.

(** C10, as the code has it.  The names that end with [.css] are exactly
    the ones [isCSS] accepts, and the entries of a chunk are made of the
    files [isCSS] accepts, in their order.  For a name that does not end
    with [.css], when [chunksMapping] has returned: a chunk that listed
    the name still lists it, and the asset table still has an object under
    it if it had one; and the table holds under it the object it held
    before when the run registers no part and no imports file under that
    name. *)
Theorem other_assets_untouched (compilation : Compilation)
    (chunks chunks' : list (list string)) (assets' : gmap string Source.t)
    (n n' : nat) (name : string) :
  chunksMapping options compilation chunks n = Ok ((assets', chunks'), n') →
  isCSS name = false →
  (∀ x, isCSS x = true ↔ ∃ stem, x = stem +:+ ".css")
  ∧ (∀ k fs, chunks !! k = Some fs →
       ∃ es, entriesOf options compilation chunks n !! k = Some es
             ∧ Entry.file <$> es = filter (λ x, isCSS x = true) fs)
  ∧ (∀ k fs, chunks !! k = Some fs → name ∈ fs →
       ∃ fs', chunks' !! k = Some fs' ∧ name ∈ fs')
  ∧ (is_Some (compilationAssets compilation !! name) →
     is_Some (assets' !! name))
  ∧ (name ∉ namesRegistered options compilation chunks n →
     assets' !! name = compilationAssets compilation !! name).
Proof.
  unfold chunksMapping, namesRegistered, entriesOf.
  intros Hrun Hcss.
  assert (∀ es, es ⊆ mjoin (processed options (publicPathOf compilation)
                             (compilationAssets compilation) chunks n) →
                name ∉ droppedNames options es) as Hkept.
  { intros es Hsub (e & -> & He)%list_elem_of_fmap.
    apply list_elem_of_filter in He as [_ He]. apply Hsub in He.
    rewrite (run_entry_css _ _ _ _ _ _ _ _ _ Hrun He) in Hcss. discriminate. }
  split; [intros x; apply endsWith_spec |].
  split; [|split; [|split]].
  - intros k fs Hk.
    destruct (run_chunk _ _ _ _ _ _ _ _ _ _ Hrun Hk)
      as (fs' & es & table_k & _ & Hes & Hfiles & _).
    by exists es.
  - intros k fs Hk Hin.
    destruct (run_chunk _ _ _ _ _ _ _ _ _ _ Hrun Hk)
      as (fs' & es & table_k & Hfs' & Hes & _ & _ & Hperm & _).
    exists fs'. split; [done |].
    assert (name ∈ droppedNames options es ++ fs') as H.
    { rewrite Hperm. apply elem_of_app. by left. }
    apply elem_of_app in H as [H | H]; [|done].
    exfalso. revert H. apply Hkept.
    intros e He. apply list_elem_of_join. exists es. split; [done |].
    by eapply list_elem_of_lookup_2.
  - intros Hbefore. apply (run_assets_stay _ _ _ _ _ _ _ _ _ Hrun); [|by left].
    by apply Hkept.
  - intros Hname. rewrite (run_assets _ _ _ _ _ _ _ _ _ Hrun Hname).
    by rewrite bool_decide_eq_false_2 by (by apply Hkept).
Qed.

Lemma filter_eq_absent (name : string) (l : list string) :
  name ∉ l → filter (λ y, y = name) l = [].
Proof.
  induction l as [|x l IH]; [done |].
  rewrite not_elem_of_cons. intros [Hx Hl].
  rewrite filter_cons, decide_False by done. by apply IH.
Qed.

Lemma filter_eq_css (name : string) (l : list string) :
  isCSS name = true →
  filter (λ y, y = name) (filter (λ x, isCSS x = true) l)
  = filter (λ y, y = name) l.
Proof.
  intros Hcss. rewrite list_filter_filter. apply list_filter_iff.
  intros x. split; [by intros [? _] | by intros ->].
Qed.

Lemma filter_eq_dropped (name : string) (es : list Entry.t) :
  (∀ e, e ∈ es → Entry.file e = name → isDropped options e = true) →
  filter (λ y, y = name) (droppedNames options es)
  = filter (λ y, y = name) (Entry.file <$> es).
Proof.
  unfold droppedNames. induction es as [|e es IH]; intros Hall; [done |].
  assert (filter (λ y, y = name)
            (Entry.file <$> filter (λ e, isDropped options e = true) es)
          = filter (λ y, y = name) (Entry.file <$> es)) as IH'.
  { apply IH. intros e' He'. apply Hall. by right. }
  rewrite fmap_cons, !filter_cons.
  destruct (decide (Entry.file e = name)) as [Hname | Hname].
  - rewrite decide_True by (apply Hall; [by left | done]).
    rewrite fmap_cons, filter_cons, decide_True by done. by rewrite IH'.
  - case_decide; [|done].
    rewrite fmap_cons, filter_cons, decide_False by done. done.
Qed.

(** C2, as the code has it.  With [preserve] not set, a style sheet
    [name] of a chunk that is split into more than one segment and under
    whose name the run registers no part and no imports file is, when
    [chunksMapping] has returned, neither in the asset table nor in the
    file list of its chunk. *)
Theorem original_removed (compilation : Compilation)
    (chunks chunks' : list (list string)) (assets' : gmap string Source.t)
    (n n' k : nat) (fs : list string) (name : string) (asset : Source.t) :
  Js.truthy (Options.preserve options) = false →
  chunksMapping options compilation chunks n = Ok ((assets', chunks'), n') →
  chunks !! k = Some fs →
  name ∈ fs →
  isCSS name = true →
  compilationAssets compilation !! name = Some asset →
  1 < length (split (Source.value asset) (Options.size options)) →
  name ∉ namesRegistered options compilation chunks n →
  assets' !! name = None
  ∧ ∃ fs', chunks' !! k = Some fs' ∧ name ∉ fs'.
Proof.
  unfold chunksMapping, namesRegistered, entriesOf.
  intros Hp Hrun Hk Hin Hcss Hasset Hmany Hname.
  destruct (run_chunk _ _ _ _ _ _ _ _ _ _ Hrun Hk)
    as (fs' & es & table_k & Hfs' & Hes & Hfiles & Hbuilt & Hperm & Htable).
  assert (∀ e, e ∈ es → Entry.file e = name → isDropped options e = true)
    as Hdropped.
  { intros e He Hfile.
    destruct (built_lookup _ _ _ Hbuilt He) as (a & Ha & Hlen).
    rewrite Hfile in Ha.
    destruct (Htable _ Hname) as [H | H]; rewrite H in Ha; [|discriminate].
    rewrite Hasset in Ha. injection Ha as <-.
    unfold isDropped. rewrite Hp, Hlen, bool_decide_eq_true_2 by done. done. }
  assert (name ∈ Entry.file <$> es) as He.
  { rewrite Hfiles. by apply list_elem_of_filter. }
  assert (es ⊆ mjoin (processed options (publicPathOf compilation)
                        (compilationAssets compilation) chunks n)) as Hsub.
  { intros e' He'. apply list_elem_of_join. exists es. split; [done |].
    by eapply list_elem_of_lookup_2. }
  split.
  - rewrite (run_assets _ _ _ _ _ _ _ _ _ Hrun Hname).
    rewrite bool_decide_eq_true_2; [done |].
    apply list_elem_of_fmap in He as (e & -> & He).
    apply list_elem_of_fmap. exists e. split; [done |].
    apply list_elem_of_filter. split; [by apply Hdropped | by apply Hsub].
  - exists fs'. split; [done |].
    assert (name ∉ es ≫= registeredNames options (publicPathOf compilation))
      as Hlocal.
    { intros (e' & Hreg & He')%list_elem_of_bind. apply Hname.
      apply list_elem_of_bind. exists e'. split; [done | by apply Hsub]. }
    assert (length (filter (λ y, y = name) (droppedNames options es ++ fs'))
            = length (filter (λ y, y = name)
                        (fs ++ (es ≫= registeredNames options
                                        (publicPathOf compilation))))) as Hcount.
    { by rewrite Hperm. }
    rewrite !filter_app, !length_app in Hcount.
    rewrite (filter_eq_absent _ _ Hlocal), (filter_eq_dropped _ _ Hdropped) in Hcount.
    rewrite <- (filter_eq_css name fs Hcss), <- Hfiles in Hcount.
    simpl in Hcount.
    assert (filter (λ y, y = name) fs' = []) as Hnone.
    { apply length_zero_iff_nil. lia. }
    by apply (filter_nil_not_elem_of _ _ name Hnone).
Qed.

Lemma partNames_inv (e : Entry.t) (x : string) :
  x ∈ partNames e →
  1 < length (Entry.chunks e)
  ∧ ∃ part, part ∈ Entry.chunks e ∧ Js.text (Source.fullname part) = x.
Proof.
  unfold partNames.
  destruct (Entry.chunks e) as [|p [|q r]];
    [by intros ?%elem_of_nil | by intros ?%elem_of_nil |].
  intros (part & -> & Hpart)%list_elem_of_fmap.
  split; [simpl; lia | by exists part].
Qed.

Lemma built_fullname (table : gmap string Source.t) (e : Entry.t) (part : Source.t) :
  builtFrom options table e → part ∈ Entry.chunks e →
  Source.fullname part = Some (Js.text (Source.fullname part)).
Proof.
  intros (a & n & _ & ->). simpl.
  intros (i & Hi)%list_elem_of_lookup_1.
  rewrite list_lookup_imap in Hi.
  destruct (_ !! i); [|discriminate]. by injection Hi as <-.
Qed.

Lemma inject_assets_inv (ps : list Source.t) (name : string) (a : Source.t) :
  ∀ m, assets (foldl (λ m file, inject file m) m ps) !! name = Some a →
       assets m !! name = Some a
       ∨ (a ∈ ps ∧ Js.text (Source.fullname a) = name).
Proof.
  induction ps as [|p ps IH]; intros m; simpl; [by left |].
  intros [H | [H1 H2]]%IH.
  - simpl in H. apply lookup_insert_Some in H as [[<- <-] | [_ H]].
    + right. split; [by left | done].
    + by left.
  - right. split; [by right | done].
Qed.

Section ImportsDisabled.

Variable pub : string.
Hypothesis disabled : ∀ a, Options.imports options a = None.

Lemma registerImports_disabled (e : Entry.t) (importsFile : Source.t)
    (m : Manifest) :
  registerImports options e importsFile m = m.
Proof. unfold registerImports. by rewrite disabled. Qed.

Lemma registered_disabled (e : Entry.t) :
  registeredNames options pub e = partNames e.
Proof.
  unfold registeredNames, importsName. rewrite disabled.
  by rewrite List.app_nil_r.
Qed.

Lemma forEach_assets_disabled (es : list Entry.t) (name : string) (a : Source.t) :
  ∀ m n m' n',
    forEachM (forEntry options pub) es m n = Ok (m', n') →
    assets m' !! name = Some a →
    assets m !! name = Some a
    ∨ ∃ e, e ∈ es ∧ 1 < length (Entry.chunks e) ∧ a ∈ Entry.chunks e
           ∧ Js.text (Source.fullname a) = name.
Proof.
  induction es as [|e es IH]; intros m n m' n'.
  - intros [= <- <-] ?. by left.
  - rewrite forEach_cons, registerImports_disabled. intros Hrun Ha.
    destruct (IH _ _ _ _ Hrun Ha) as [H | (e' & ? & ?)];
      [|right; exists e'; split; [by right | done]].
    assert (assets (injectAll e m) !! name = Some a) as Hinj.
    { revert H. unfold dropOriginal.
      destruct (_ && _); [|done]. cbn [assets].
      by intros [_ ?]%lookup_delete_Some. }
    revert Hinj. unfold injectAll.
    destruct (Entry.chunks e) as [|p [|q r]] eqn:Hchunks;
      [by left | by left |].
    intros [? | [? ?]]%inject_assets_inv; [by left |].
    right. exists e. rewrite Hchunks.
    split; [by left |]. split; [simpl; lia | done].
Qed.

Lemma run_assets_disabled (chunks : list (list string)) (name : string)
    (a : Source.t) :
  ∀ table n table' chunks' n',
    forChunks options pub table chunks n = Ok ((table', chunks'), n') →
    table' !! name = Some a →
    table !! name = Some a
    ∨ ∃ e, e ∈ mjoin (processed options pub table chunks n)
           ∧ 1 < length (Entry.chunks e) ∧ a ∈ Entry.chunks e
           ∧ Js.text (Source.fullname a) = name.
Proof.
  induction chunks as [|fs rest IH]; intros table n table' chunks' n'.
  - intros [= <- <- <-] ?. by left.
  - simpl. intros (m & n1 & Hchunk & H)%bind_Ok Ha.
    apply bind_Ok in H as ([table1 rest'] & n2 & Hrest & [= <- <- <-]).
    destruct (forChunk_inv _ _ _ _ _ _ Hchunk) as (es & n0 & Hes & Hloop & _).
    rewrite Hes, Hloop.
    destruct (IH _ _ _ _ _ Hrest Ha) as [H | (e & He & ?)].
    + destruct (forEach_assets_disabled _ _ _ _ _ _ _ Hloop H)
        as [? | (e & He & ?)]; [by left |].
      right. exists e. split; [|done]. rewrite join_cons.
      apply elem_of_app. by left.
    + right. exists e. split; [|done]. rewrite join_cons.
      apply elem_of_app. by right.
Qed.

End ImportsDisabled.

(** C8.  With [imports: false] the step that registers the imports file
    does nothing, for every entry, every object and every manifest.  So
    when [chunksMapping] has returned, every object in the asset table is
    the one that was there before under the same name, or a part of an
    asset that was split into more than one segment, under its full path;
    and every name in the file list of a chunk was there before, or is
    the full path of such a part of an entry of that chunk. *)
Theorem no_imports_file_when_disabled (c : Config.t) (compilation : Compilation)
    (chunks chunks' : list (list string)) (assets' : gmap string Source.t)
    (n n' : nat) :
  constructor c = Ok options →
  Config.imports c = Js.Boolean false →
  chunksMapping options compilation chunks n = Ok ((assets', chunks'), n') →
  (∀ entry importsFile m, registerImports options entry importsFile m = m)
  ∧ (∀ name a, assets' !! name = Some a →
       compilationAssets compilation !! name = Some a
       ∨ ∃ e, e ∈ mjoin (entriesOf options compilation chunks n)
              ∧ 1 < length (Entry.chunks e)
              ∧ a ∈ Entry.chunks e
              ∧ Source.fullname a = Some name)
  ∧ (∀ k fs', chunks' !! k = Some fs' →
       ∃ fs es,
         chunks !! k = Some fs
         ∧ entriesOf options compilation chunks n !! k = Some es
         ∧ ∀ x, x ∈ fs' →
             x ∈ fs
             ∨ ∃ e part, e ∈ es ∧ 1 < length (Entry.chunks e)
                         ∧ part ∈ Entry.chunks e
                         ∧ Source.fullname part = Some x).
Proof.
  unfold chunksMapping, entriesOf. intros Hc Himports Hrun.
  assert (∀ a, Options.imports options a = None) as Hoff.
  { apply (constructor_imports_false c); [done | by left]. }
  split; [intros; by apply registerImports_disabled |].
  split.
  - intros name a Ha.
    destruct (run_assets_disabled _ Hoff _ _ _ _ _ _ _ _ Hrun Ha)
      as [? | (e & He & Hmany & Hpart & Htext)]; [by left |].
    right. exists e. repeat split; try done.
    destruct (run_entry _ _ _ _ _ _ _ _ _ Hrun He) as (k & fs & es & Hfs & Hes & Hin).
    destruct (run_chunk _ _ _ _ _ _ _ _ _ _ Hrun Hfs)
      as (fs' & es' & table_k & _ & Hes' & _ & Hbuilt & _).
    rewrite Hes in Hes'. injection Hes' as <-.
    rewrite Forall_forall in Hbuilt.
    rewrite (built_fullname _ _ _ (Hbuilt e Hin) Hpart). by rewrite Htext.
  - intros k fs' Hfs'.
    destruct (run_lengths _ _ _ _ _ _ _ _ Hrun) as [Hlen _].
    destruct (lookup_lt_is_Some_2 chunks k) as [fs Hfs].
    { rewrite <- Hlen. by eapply lookup_lt_Some. }
    destruct (run_chunk _ _ _ _ _ _ _ _ _ _ Hrun Hfs)
      as (fs1 & es & table_k & Hfs1 & Hes & _ & Hbuilt & Hperm & _).
    rewrite Hfs' in Hfs1. injection Hfs1 as <-.
    exists fs, es. split; [done |]. split; [done |].
    intros x Hx.
    assert (x ∈ fs ++ (es ≫= registeredNames options (publicPathOf compilation)))
      as H.
    { rewrite <- Hperm. apply elem_of_app. by right. }
    apply elem_of_app in H as [? | H]; [by left |].
    apply list_elem_of_bind in H as (e & Hreg & He).
    rewrite registered_disabled in Hreg by done.
    apply partNames_inv in Hreg as (Hmany & part & Hpart & Htext).
    right. exists e, part. repeat split; try done.
    rewrite Forall_forall in Hbuilt.
    rewrite (built_fullname _ _ _ (Hbuilt e He) Hpart). by rewrite Htext.
Qed.

End RunProperties.

(** ** The small build *)

Section Examples.

#[local] Existing Instance Sample.collaborators.

Import Scenario.

Lemma run_returns (c : Config.t) :
  (if run (plugin c) is Ok _ then true else false) = true →
  chunksMapping (plugin c) compilation chunks 2
  = Ok ((assetsAfter (plugin c), chunksAfter (plugin c)), nextAfter (plugin c)).
Proof.
  unfold assetsAfter, chunksAfter, nextAfter, run.
  by destruct (chunksMapping _ _ _ _) as [[[??]?]|].
Qed.

(** C9 at work: three rules and a limit of two. *)
Lemma split_concat_roundtrip_witness :
  (0 < 2)%Z
  ∧ Js.join EmptyString (Splitter.split "a{x:1} b{y:2}  @import 'c;d'; e{} " 2)
    = "a{x:1} b{y:2}  @import 'c;d'; e{} ".
Proof. split; [lia | apply split_concat_roundtrip; lia]. Defined.



(** C3 as stated fails: [undefined] is neither a string nor a boolean,
    and construction succeeds. *)
Lemma constructor_accepts_undefined :
  Js.typeof Js.Undefined ≠ "string"
  ∧ Js.typeof Js.Undefined ≠ "boolean"
  ∧ constructor (Config.make None Js.Undefined None Js.Undefined None)
    ≠ Throw TypeError
  ∧ ∃ options,
      constructor (Config.make None Js.Undefined None Js.Undefined None)
      = Ok options.
Proof. split; [done |]. split; [done |]. split; [done | by eexists]. Qed.

(** C5 as stated fails: the empty public path does not start with a dot,
    and the statement is the relative one. *)
Lemma empty_public_path_is_relative :
  let part := Source.make 2 "a{}" (Some "styles-1.css") (Some "css/styles-1.css") in
  let compilation := {| compilationAssets := ∅; publicPath := Some EmptyString |} in
  Js.startsWith "." (strip EmptyString) = false
  ∧ importStatement (publicPathOf compilation) part = importOf "./styles-1.css"
  ∧ importStatement (publicPathOf compilation) part
    ≠ importOf (strip EmptyString +:+ "/" +:+ "css/styles-1.css").
Proof. by vm_compute. Qed.

(** C2 as stated fails: with [imports: true] and [preserve: false] the
    style sheet is split in two, and its name then holds the imports file
    and is in the file list of the chunk. *)
Lemma original_name_reused :
  let options := plugin (config 1 (Js.Boolean true) (Js.Boolean false)) in
  Js.truthy (Options.preserve options) = false
  ∧ 1 < length (split "a{}b{}" 1)
  ∧ chunksMapping options compilation [["main.js"; "styles.css"]] 2
    = Ok ((assetsAfter options,
           [["main.js"; "styles-1.css"; "styles-2.css"; "styles.css"]]), 5)
  ∧ assetsAfter options !! "styles.css"
    = Some (Source.make 4
              (importOf "/foo/styles-1.css" +:+ Js.newline
               +:+ importOf "/foo/styles-2.css") None None)
  ∧ assetsAfter options !! "styles.css" ≠ None
  ∧ "styles.css" ∈ ["main.js"; "styles-1.css"; "styles-2.css"; "styles.css"].
Proof. repeat split; first [by vm_compute | compute_done]. Qed.

(** C2 at work: the imports file is named [all.css], the style sheet is
    split in two and its name is gone. *)
Lemma original_removed_witness :
  let options := plugin (config 1 (Js.Str "all.css") (Js.Boolean false)) in
  assetsAfter options !! "styles.css" = None
  ∧ ∃ fs', chunksAfter options !! 0 = Some fs' ∧ "styles.css" ∉ fs'.
Proof.
  intros options.
  apply (original_removed options compilation chunks (chunksAfter options)
           (assetsAfter options) 2 (nextAfter options) 0
           ["main.js"; "styles.css"] "styles.css" (host 0 "a{}b{}")).
  - reflexivity.
  - apply run_returns. by vm_compute.
  - reflexivity.
  - compute_done.
  - reflexivity.
  - by vm_compute.
  - compute_done.
  - compute_done.
Defined.


(** C7 as stated fails: with [preserve: true] and the imports file named
    [styles.css], the name of the style sheet holds the imports file when
    the run is over, and no longer the two rules. *)
Lemma original_overwritten :
  let options := plugin (config 1 (Js.Str "styles.css") (Js.Boolean true)) in
  Js.truthy (Options.preserve options) = true
  ∧ table !! "styles.css" = Some (host 0 "a{}b{}")
  ∧ chunksMapping options compilation [["main.js"; "styles.css"]] 2
    = Ok ((assetsAfter options,
           [["main.js"; "styles.css"; "styles-1.css"; "styles-2.css";
             "styles.css"]]), 5)
  ∧ assetsAfter options !! "styles.css"
    = Some (Source.make 4
              (importOf "/foo/styles-1.css" +:+ Js.newline
               +:+ importOf "/foo/styles-2.css") None None)
  ∧ Source.value <$> assetsAfter options !! "styles.css"
    ≠ Source.value <$> table !! "styles.css".
Proof. repeat split; first [by vm_compute | compute_done]. Qed.

(** C7 at work: with [imports: true] and [preserve: true] the imports
    file is [styles-split.css], and the style sheet stays. *)
Lemma original_preserved_witness :
  let options := plugin (config 1 (Js.Boolean true) (Js.Boolean true)) in
  ∃ fs',
    is_Some (assetsAfter options !! "styles.css")
    ∧ chunksAfter options !! 0 = Some fs'
    ∧ "styles.css" ∈ fs'
    ∧ ("styles.css" ∉ namesRegistered options compilation chunks 2 →
       ∃ asset,
         table !! "styles.css" = Some asset
         ∧ assetsAfter options !! "styles.css" = Some asset).
Proof.
  intros options.
  apply (original_preserved options compilation chunks (chunksAfter options)
           (assetsAfter options) 2 (nextAfter options) 0
           ["main.js"; "styles.css"] "styles.css").
  - reflexivity.
  - apply run_returns. by vm_compute.
  - reflexivity.
  - compute_done.
  - reflexivity.
Defined.

(** C10 as stated fails: with the imports file named [main.js], the
    script, whose name does not end with [.css], is replaced in the table
    by the imports file. *)
Lemma script_overwritten :
  let options := plugin (config 1 (Js.Str "main.js") (Js.Boolean true)) in
  isCSS "main.js" = false
  ∧ table !! "main.js" = Some (host 1 "js")
  ∧ chunksMapping options compilation [["main.js"; "styles.css"]] 2
    = Ok ((assetsAfter options,
           [["main.js"; "styles.css"; "styles-1.css"; "styles-2.css";
             "main.js"]]), 5)
  ∧ assetsAfter options !! "main.js"
    = Some (Source.make 4
              (importOf "/foo/styles-1.css" +:+ Js.newline
               +:+ importOf "/foo/styles-2.css") None None)
  ∧ assetsAfter options !! "main.js" ≠ table !! "main.js".
Proof. repeat split; first [by vm_compute | compute_done]. Qed.

(** C10 at work: the script keeps its place and its object. *)
Lemma other_assets_untouched_witness :
  let options := plugin (config 1 (Js.Boolean true) (Js.Boolean false)) in
  (∀ k fs, chunks !! k = Some fs → "main.js" ∈ fs →
     ∃ fs', chunksAfter options !! k = Some fs' ∧ "main.js" ∈ fs')
  ∧ (is_Some (table !! "main.js") → is_Some (assetsAfter options !! "main.js"))
  ∧ ("main.js" ∉ namesRegistered options compilation chunks 2 →
     assetsAfter options !! "main.js" = table !! "main.js").
Proof.
  intros options.
  destruct (other_assets_untouched options compilation chunks
              (chunksAfter options) (assetsAfter options) 2 (nextAfter options)
              "main.js")
    as (_ & _ & Hlisted & Hthere & Hsame).
  - apply run_returns. by vm_compute.
  - reflexivity.
  - by split.
Defined.

(** C8 at work: with [imports: false] the table holds the originals that
    were not dropped and the parts, and nothing else. *)
Lemma no_imports_file_when_disabled_witness :
  let c := config 1 (Js.Boolean false) (Js.Boolean false) in
  (∀ entry importsFile m, registerImports (plugin c) entry importsFile m = m)
  ∧ ∀ name a, assetsAfter (plugin c) !! name = Some a →
      table !! name = Some a
      ∨ ∃ e, e ∈ mjoin (entriesOf (plugin c) compilation chunks 2)
             ∧ 1 < length (Entry.chunks e)
             ∧ a ∈ Entry.chunks e
             ∧ Source.fullname a = Some name.
Proof.
  intros c.
  destruct (no_imports_file_when_disabled (plugin c) c compilation chunks
              (chunksAfter (plugin c)) (assetsAfter (plugin c)) 2
              (nextAfter (plugin c)))
    as (H1 & H2 & _).
  - reflexivity.
  - reflexivity.
  - apply run_returns. by vm_compute.
  - by split.
Defined.

End Examples.

(** * More of the code *)

(** ** When [chunksMapping] throws *)

Section Completion.

Context {collaborators : Collaborators}.
Variable options : Options.t.
Variable pub : string.

Lemma bind_Throw {A B} (m : M A) (f : A → M B) (n : nat) (e : Js.error) :
  (m ≫= f) n = Throw e
  ↔ m n = Throw e ∨ ∃ a n1, m n = Ok (a, n1) ∧ f a n1 = Throw e.
Proof.
  unfold mbind, M_bind. destruct (m n) as [[a n1]|e'].
  - split.
    + intros H. right. by exists a, n1.
    + intros [H | (a0 & n0 & H1 & H)]; [discriminate | by simplify_eq].
  - destruct e, e'. split; [intros _; by left | done].
Qed.

Lemma mapiM_file_total (table : gmap string Source.t) (input : list string) :
  ∀ i n,
    (∀ name, name ∈ input → is_Some (table !! name)) →
    ∃ es n', mapiM (λ _ name, file options name (table !! name)) i input n
             = Ok (es, n').
Proof.
  induction input as [|name input IH]; intros i n Hall; simpl.
  - by eexists _, _.
  - destruct (Hall name) as [a Ha]; [by left |].
    destruct (IH (S i) (n + length (split (Source.value a) (Options.size options))))
      as (es & n' & Hes); [intros; apply Hall; by right |].
    eexists _, _. rewrite Ha.
    erewrite bind_step; [|apply file_Ok].
    erewrite bind_step; [|apply Hes]. reflexivity.
Qed.

Lemma mapiM_file_throw (table : gmap string Source.t) (input : list string) :
  ∀ i n e,
    mapiM (λ _ name, file options name (table !! name)) i input n = Throw e →
    ∃ name, name ∈ input ∧ table !! name = None.
Proof.
  induction input as [|name input IH]; intros i n e; simpl; [discriminate |].
  intros [Hfile | (entry & n1 & _ & H)]%bind_Throw.
  - exists name. split; [by left |].
    destruct (table !! name); [by rewrite file_Ok in Hfile | done].
  - apply bind_Throw in H as [H | (? & ? & _ & H)]; [|discriminate].
    destruct (IH _ _ _ H) as (x & ? & ?). exists x. split; [by right | done].
Qed.

(** The body of the loop over the chunks returns exactly when every style
    sheet of the chunk is in the table at that moment: the entries are all
    built before the first of them changes the table. *)
Lemma forChunk_returns (m : Manifest) (n : nat) :
  (∀ name, name ∈ files m → isCSS name = true → is_Some (assets m !! name)) →
  ∃ m' n', forChunk options pub m n = Ok (m', n').
Proof.
  intros Hall.
  destruct (mapiM_file_total (assets m)
              (filter (λ name, isCSS name = true) (files m)) 0 n)
    as (es & n1 & Hes).
  { intros name [? ?]%list_elem_of_filter. by apply Hall. }
  destruct (forEach_total options pub es m n1) as (m' & n' & Hloop).
  exists m', n'. unfold forChunk. erewrite bind_step; [exact Hloop | exact Hes].
Qed.

Lemma forChunk_throws (m : Manifest) (n : nat) (e : Js.error) :
  forChunk options pub m n = Throw e →
  ∃ name, name ∈ files m ∧ isCSS name = true ∧ assets m !! name = None.
Proof.
  intros [H | (es & n1 & _ & H)]%bind_Throw.
  - apply mapiM_file_throw in H as (name & [? ?]%list_elem_of_filter & ?).
    by exists name.
  - destruct (forEach_total options pub es m n1) as (? & ? & Hloop).
    rewrite Hloop in H. discriminate.
Qed.

End Completion.

Section RunCompletion.

Context {collaborators : Collaborators}.
Variable options : Options.t.

Lemma run_chunk_dropped (pub : string) (chunks : list (list string)) :
  ∀ table n table' chunks' n' k fs,
    forChunks options pub table chunks n = Ok ((table', chunks'), n') →
    chunks !! k = Some fs →
    ∃ es table_k,
      processed options pub table chunks n !! k = Some es
      ∧ Forall (builtFrom options table_k) es
      ∧ ∀ name,
          name ∉ mjoin (processed options pub table chunks n)
                   ≫= registeredNames options pub →
          table_k !! name
          = if bool_decide
                 (name ∈ droppedNames options
                           (mjoin (take k (processed options pub table chunks n))))
            then None else table !! name.
Proof.
  induction chunks as [|fs0 rest IH]; intros table n table' chunks' n' k fs;
    [by intros _ [=] |].
  intros (m & n1 & rest' & es & _ & Hrest & -> & -> & Hfs & Hbuilt & Hperm & Hm)
    %forChunks_cons_inv.
  destruct k as [|k].
  - intros _. exists es, table. split; [done |]. split; [done |].
    intros name _. by rewrite bool_decide_eq_false_2 by (by intros ?%elem_of_nil).
  - intros Hk. change ((fs0 :: rest) !! S k) with (rest !! k) in Hk.
    destruct (IH _ _ _ _ _ _ _ Hrest Hk) as (es' & table_k & Hes' & Hbuilt' & Hk').
    exists es', table_k. split; [done |]. split; [done |].
    intros name. rewrite join_cons, bind_app, not_elem_of_app. intros [Hes Hlater].
    rewrite (Hk' name Hlater), (Hm name Hes).
    change (take (S k) (es :: ?l)) with (es :: take k l).
    rewrite join_cons, dropped_app.
    repeat case_bool_decide; try done; exfalso; split_elem; tauto.
Qed.

Lemma filter_none (l : list string) :
  (∀ name, name ∈ l → isCSS name = false) →
  filter (λ name, isCSS name = true) l = [].
Proof.
  induction l as [|x l IH]; intros Hall; [done |].
  rewrite filter_cons, decide_False.
  - apply IH. intros. apply Hall. by right.
  - rewrite (Hall x) by (by left). done.
Qed.

(** X1.  A build without style sheets is left alone: when no name in any
    chunk ends with [.css], [chunksMapping] returns the asset table and the
    chunks it was given and creates no object, whatever the options. *)
Theorem no_css_untouched (compilation : Compilation)
    (chunks : list (list string)) (n : nat) :
  (∀ fs name, fs ∈ chunks → name ∈ fs → isCSS name = false) →
  chunksMapping options compilation chunks n
  = Ok ((compilationAssets compilation, chunks), n).
Proof.
  unfold chunksMapping. generalize (compilationAssets compilation) as table.
  induction chunks as [|fs rest IH]; intros table Hall; [done |].
  simpl. unfold forChunk, entriesFor. simpl.
  rewrite filter_none by (intros; eapply Hall; [by left | done]).
  simpl. unfold mbind, M_bind, mret, M_ret. simpl.
  rewrite IH by (intros; eapply Hall; [by right | done]).
  done.
Qed.

(** X2.  One chunk: [chunksMapping] returns exactly when every style sheet
    the chunk lists is in the asset table, and throws a TypeError exactly
    when one of them is missing.  A style sheet listed twice, or dropped
    while the chunk is rewritten, does not make it throw: the entries are
    built before the first of them changes the table. *)
Theorem one_chunk_returns_iff (compilation : Compilation)
    (fs : list string) (n : nat) :
  ((∃ table' fs' n',
      chunksMapping options compilation [fs] n = Ok ((table', [fs']), n'))
   ↔ ∀ name, name ∈ fs → isCSS name = true →
       is_Some (compilationAssets compilation !! name))
  ∧ (chunksMapping options compilation [fs] n = Throw TypeError
     ↔ ∃ name, name ∈ fs ∧ isCSS name = true
               ∧ compilationAssets compilation !! name = None).
Proof.
  unfold chunksMapping.
  set (pub := publicPathOf compilation). set (table := compilationAssets compilation).
  assert ((∃ table' fs' n',
             forChunks options pub table [fs] n = Ok ((table', [fs']), n'))
          ↔ ∀ name, name ∈ fs → isCSS name = true → is_Some (table !! name))
    as Hreturns.
  { split.
    - intros (table' & fs' & n' & Hrun) name Hin Hcss.
      destruct (run_chunk options pub [fs] _ _ _ _ _ 0 fs Hrun eq_refl)
        as (? & es & table_k & _ & Hes & Hfiles & Hbuilt & _).
      apply forChunks_cons_inv in Hrun
        as (m & n1 & rest' & es' & _ & _ & _ & Hes' & Hfiles' & Hbuilt' & _).
      assert (name ∈ Entry.file <$> es') as He.
      { rewrite Hfiles'. by apply list_elem_of_filter. }
      apply list_elem_of_fmap in He as (e & -> & He).
      rewrite Forall_forall in Hbuilt'.
      destruct (Hbuilt' e He) as (a & ? & Ha & _). by exists a.
    - intros Hall.
      destruct (forChunk_returns options pub {| assets := table; files := fs |} n)
        as (m & n' & Hm); [done |].
      exists (assets m), (files m), n'. simpl.
      erewrite bind_step; [|exact Hm]. reflexivity. }
  split; [exact Hreturns |].
  split.
  - simpl. intros [H | (m & n1 & _ & H)]%bind_Throw.
    + by apply forChunk_throws in H.
    + discriminate.
  - intros (name & Hin & Hcss & Hnone).
    destruct (forChunks options pub table [fs] n) as [[[table' chunks'] n']|e] eqn:Hrun.
    + exfalso.
      destruct (run_lengths options pub [fs] _ _ _ _ _ Hrun) as [Hlen _].
      destruct chunks' as [|fs' [|? ?]]; try discriminate Hlen.
      destruct Hreturns as [Hreturns _].
      destruct (Hreturns (ex_intro _ table' (ex_intro _ fs' (ex_intro _ n' eq_refl)))
                  name Hin Hcss) as [a Ha].
      congruence.
    + by destruct e.
Qed.

(** X3.  With [preserve] set nothing is taken out of the asset table, so
    [chunksMapping] returns whenever every style sheet that a chunk lists
    is in the table at the start, however many chunks list it. *)
Theorem preserve_run_returns (compilation : Compilation)
    (chunks : list (list string)) (n : nat) :
  Js.truthy (Options.preserve options) = true →
  (∀ fs name, fs ∈ chunks → name ∈ fs → isCSS name = true →
     is_Some (compilationAssets compilation !! name)) →
  ∃ table' chunks' n',
    chunksMapping options compilation chunks n = Ok ((table', chunks'), n').
Proof.
  unfold chunksMapping. intros Hp.
  generalize (compilationAssets compilation) as table. revert n.
  induction chunks as [|fs rest IH]; intros n table Hall.
  - by eexists _, _, _.
  - destruct (forChunk_returns options (publicPathOf compilation)
                {| assets := table; files := fs |} n) as (m & n1 & Hm).
    { intros name. apply Hall. by left. }
    destruct (forChunk_inv _ _ _ _ _ _ Hm) as (es & n0 & _ & Hloop & _).
    destruct (IH n1 (assets m)) as (table' & rest' & n' & Hrest).
    { intros fs' name Hfs' Hin Hcss.
      apply (forEach_assets_stay options _ es name _ _ _ _ Hloop).
      - rewrite dropped_preserve by done. by intros ?%elem_of_nil.
      - left. apply (Hall fs'); [by right | done | done]. }
    exists table', (files m :: rest'), n'. simpl.
    erewrite bind_step; [|exact Hm]. erewrite bind_step; [|exact Hrest]. done.
Qed.

(** X4.  A style sheet that a chunk lists, that is not in the asset table
    and that gets no object from an earlier entry of the run makes
    [chunksMapping] throw a TypeError. *)
Theorem missing_asset_throws (compilation : Compilation)
    (chunks : list (list string)) (n k : nat) (fs : list string) (name : string) :
  chunks !! k = Some fs →
  name ∈ fs →
  isCSS name = true →
  compilationAssets compilation !! name = None →
  name ∉ namesRegistered options compilation chunks n →
  chunksMapping options compilation chunks n = Throw TypeError.
Proof.
  unfold chunksMapping, namesRegistered, entriesOf.
  intros Hk Hin Hcss Hnone Hname.
  destruct (forChunks _ _ _ _ _) as [[[table' chunks'] n']|e] eqn:Hrun;
    [|by destruct e].
  exfalso.
  destruct (run_chunk _ _ _ _ _ _ _ _ _ _ Hrun Hk)
    as (fs' & es & table_k & _ & _ & Hfiles & Hbuilt & _ & Htable).
  assert (name ∈ Entry.file <$> es) as He.
  { rewrite Hfiles. by apply list_elem_of_filter. }
  apply list_elem_of_fmap in He as (e & -> & He).
  destruct (built_lookup _ _ _ _ Hbuilt He) as (a & Ha & _).
  destruct (Htable _ Hname) as [H | H]; rewrite H in Ha; congruence.
Qed.

(** X5.  A style sheet that two chunks list, that is split into more than
    one segment and dropped (no [preserve]), and under whose name nothing
    is registered, makes [chunksMapping] throw a TypeError: the first chunk
    takes it out of the table and the second one looks it up. *)
Theorem shared_sheet_throws (compilation : Compilation)
    (chunks : list (list string)) (n j k : nat) (fs_j fs_k : list string)
    (name : string) (asset : Source.t) :
  Js.truthy (Options.preserve options) = false →
  j < k →
  chunks !! j = Some fs_j →
  chunks !! k = Some fs_k →
  name ∈ fs_j →
  name ∈ fs_k →
  isCSS name = true →
  compilationAssets compilation !! name = Some asset →
  1 < length (split (Source.value asset) (Options.size options)) →
  name ∉ namesRegistered options compilation chunks n →
  chunksMapping options compilation chunks n = Throw TypeError.
Proof.
  unfold chunksMapping, namesRegistered, entriesOf.
  intros Hp Hjk Hj Hk Hin_j Hin_k Hcss Hasset Hmany Hname.
  destruct (forChunks _ _ _ _ _) as [[[table' chunks'] n']|e] eqn:Hrun;
    [|by destruct e].
  exfalso.
  destruct (run_chunk _ _ _ _ _ _ _ _ _ _ Hrun Hj)
    as (? & es_j & table_j & _ & Hes_j & Hfiles_j & Hbuilt_j & _ & Htable_j).
  assert (name ∈ Entry.file <$> es_j) as He.
  { rewrite Hfiles_j. by apply list_elem_of_filter. }
  apply list_elem_of_fmap in He as (e & -> & He).
  destruct (built_lookup _ _ _ _ Hbuilt_j He) as (a & Ha & Hlen).
  assert (a = asset) as ->.
  { destruct (Htable_j _ Hname) as [H | H]; rewrite H in Ha; congruence. }
  assert (isDropped options e = true) as Hdropped.
  { unfold isDropped. by rewrite Hp, Hlen, bool_decide_eq_true_2. }
  destruct (run_chunk _ _ _ _ _ _ _ _ _ _ Hrun Hk)
    as (? & es_k & ? & _ & Hes_k & Hfiles_k & _).
  destruct (run_chunk_dropped _ _ _ _ _ _ _ _ _ Hrun Hk)
    as (es_k' & table_k & Hes_k' & Hbuilt_k & Htable_k).
  rewrite Hes_k in Hes_k'. injection Hes_k' as <-.
  assert (Entry.file e ∈ Entry.file <$> es_k) as He_k.
  { rewrite Hfiles_k. by apply list_elem_of_filter. }
  apply list_elem_of_fmap in He_k as (e' & Hfile & He').
  destruct (built_lookup _ _ _ _ Hbuilt_k He') as (a' & Ha' & _).
  rewrite <- Hfile, (Htable_k _ Hname), bool_decide_eq_true_2 in Ha';
    [discriminate |].
  apply list_elem_of_fmap. exists e. split; [done |].
  apply list_elem_of_filter. split; [done |].
  apply list_elem_of_join. exists es_j. split; [done |].
  apply list_elem_of_lookup. exists j. by rewrite lookup_take_lt.
Qed.

End RunCompletion.

(** ** Entries at the edges *)

Section EdgeEntries.

Context {collaborators : Collaborators}.
Variable options : Options.t.

Lemma forEach_single (pub : string) (es : list Entry.t) :
  (∀ a, Options.imports options a = None) →
  (∀ e, e ∈ es → length (Entry.chunks e) = 1) →
  ∀ m n, forEachM (forEntry options pub) es m n = Ok (m, n).
Proof.
  intros Hoff. induction es as [|e es IH]; intros Hone m n; [done |].
  rewrite forEach_cons, registerImports_disabled by done.
  assert (length (Entry.chunks e) = 1) as He by (apply Hone; by left).
  unfold dropOriginal, injectAll.
  destruct (Entry.chunks e) as [|p [|q r]]; try discriminate He.
  simpl. apply IH. intros. apply Hone. by right.
Qed.

(** X6.  With [imports: false] (or no [imports]) a build in which no style
    sheet needs splitting is left alone: when every style sheet that a
    chunk lists is in the asset table and gives one segment,
    [chunksMapping] returns the asset table and the chunks it was given. *)
Theorem unsplit_build_untouched (c : Config.t) (compilation : Compilation)
    (chunks : list (list string)) (n : nat) :
  constructor c = Ok options →
  Config.imports c = Js.Boolean false ∨ Config.imports c = Js.Undefined →
  (∀ fs name, fs ∈ chunks → name ∈ fs → isCSS name = true →
     ∃ a, compilationAssets compilation !! name = Some a
          ∧ length (split (Source.value a) (Options.size options)) = 1) →
  ∃ n', chunksMapping options compilation chunks n
        = Ok ((compilationAssets compilation, chunks), n').
Proof.
  unfold chunksMapping. intros Hc Himports.
  assert (∀ a, Options.imports options a = None) as Hoff.
  { by apply (constructor_imports_false c). }
  set (pub := publicPathOf compilation).
  generalize (compilationAssets compilation) as table. revert n.
  induction chunks as [|fs rest IH]; intros n table Hall; [by exists n |].
  destruct (forChunk_returns options pub {| assets := table; files := fs |} n)
    as (m & n1 & Hm).
  { intros name Hin Hcss.
    destruct (Hall fs name) as (a & Ha & _); [by left | done | done |]. by exists a. }
  destruct (forChunk_inv _ _ _ _ _ _ Hm) as (es & n0 & _ & Hloop & Hfiles & Hbuilt & _).
  rewrite forEach_single in Hloop; [|done |].
  - injection Hloop as <- <-.
    destruct (IH n0 table) as (n' & Hrest).
    { intros fs' name Hfs'. apply Hall. by right. }
    exists n'. simpl.
    erewrite bind_step; [|exact Hm]. simpl.
    erewrite bind_step; [|exact Hrest]. done.
  - intros e He.
    destruct (built_lookup _ _ _ _ Hbuilt He) as (a & Ha & ->).
    assert (Entry.file e ∈ Entry.file <$> es) as Hin by (by apply list_elem_of_fmap_2).
    rewrite Hfiles in Hin. apply list_elem_of_filter in Hin as [Hcss Hin].
    destruct (Hall fs (Entry.file e)) as (a' & Ha' & Hone); [by left | done | done |].
    simpl in Ha. congruence.
Qed.

End EdgeEntries.

Section ImportsFiles.

Context {collaborators : Collaborators}.
Variable options : Options.t.

Lemma constructor_imports_default (c : Config.t) :
  constructor c = Ok options →
  Config.imports c = Js.Boolean true →
  Js.truthy (Config.preserve c) = false →
  ∀ a, Options.imports options a = Some (NameArgs.file a).
Proof.
  unfold constructor. intros H Hi Hp. rewrite Hi in H. simpl in H.
  rewrite Hp in H. by injection H as <-.
Qed.

(** X7.  With [imports: true] and no [preserve] the imports file of a
    style sheet [key] (its only part if there is one segment, a new object
    with the import statements otherwise) is registered under the name of
    the sheet itself when [key] has no directory, so that it takes the
    place of the original in the asset table; when [key] has a directory
    the name is the directory, a slash and [key], which holds the
    directory a second time.  That name is also the last of the file
    list. *)
Theorem default_imports_name (c : Config.t) (key : string) (asset : Source.t)
    (n : nat) (pub : string) (m : Manifest) :
  constructor c = Ok options →
  Config.imports c = Js.Boolean true →
  Js.truthy (Config.preserve c) = false →
  key ≠ EmptyString →
  let n1 := n + length (split (Source.value asset) (Options.size options)) in
  let name :=
    if bool_decide (dirname key ≠ EmptyString ∧ dirname key ≠ ".")
    then dirname key +:+ "/" +:+ key else key in
  ∃ entry importsFile m' n',
    file options key (Some asset) n = Ok (entry, n1)
    ∧ forEntry options pub entry m n1 = Ok (m', n')
    ∧ Source.value importsFile
      = match Entry.chunks entry with
        | [only] => Source.value only
        | chunks => Js.join Js.newline (importStatement pub <$> chunks)
        end
    ∧ assets m' !! name = Some importsFile
    ∧ last (files m') = Some name.
Proof.
  intros Hc Hi Hp Hkey n1 name.
  pose proof (constructor_imports_default c Hc Hi Hp) as Himports.
  set (entry := Entry.make (dirname key) key
                  (imap (partAt options key (Source.value asset) n)
                     (split (Source.value asset) (Options.size options)))).
  exists entry, (importsFileAt pub entry n1),
    (registerImports options entry (importsFileAt pub entry n1)
       (dropOriginal options entry (injectAll entry m))),
    (match Entry.chunks entry with [_] => n1 | _ => S n1 end).
  split; [apply file_Ok |]. split; [apply forEntry_Ok |].
  split; [apply importsFileAt_value |].
  unfold registerImports. rewrite Himports. subst entry.
  cbn [NameArgs.file Entry.file].
  apply String.eqb_neq in Hkey. rewrite Hkey. cbv zeta.
  cbn [assets files Entry.dirname].
  assert (inDir (dirname key) key = name) as ->.
  { unfold inDir, name. by rewrite hasDir_spec. }
  split; [apply lookup_insert_eq | apply last_snoc].
Qed.

(** X8.  When the splitter returns no segment for a style sheet, its entry
    has no part: nothing is dropped and nothing is registered for a part,
    and the imports file is a new object with no content.  It goes into
    the manifest under the name that [options.imports] gives, if any;
    otherwise the manifest stays as it is. *)
Theorem no_segment_entry (key : string) (asset : Source.t)
    (n : nat) (pub : string) (m : Manifest) :
  split (Source.value asset) (Options.size options) = [] →
  ∃ entry m',
    file options key (Some asset) n = Ok (entry, n)
    ∧ Entry.chunks entry = []
    ∧ forEntry options pub entry m n = Ok (m', S n)
    ∧ match Options.imports options (NameArgs.make key EmptyString None) with
      | Some imports =>
          if bool_decide (imports = EmptyString) then m' = m
          else
            assets m' = <[inDir (dirname key) imports
                          := Source.make n EmptyString None None]> (assets m)
            ∧ files m' = files m ++ [inDir (dirname key) imports]
      | None => m' = m
      end.
Proof.
  intros Hnone. eexists _, _. rewrite file_Ok, Hnone, Nat.add_0_r. simpl.
  split; [reflexivity |]. split; [reflexivity |].
  rewrite forEntry_Ok. simpl. split; [reflexivity |].
  unfold registerImports, dropOriginal, injectAll, importsFileAt, importsContent.
  simpl.
  destruct (Options.imports options _) as [imports|]; [|done].
  destruct (String.eqb_spec imports EmptyString) as [-> | Hne].
  - by rewrite bool_decide_eq_true_2.
  - by rewrite bool_decide_eq_false_2.
Qed.

End ImportsFiles.

(** ** The names of the parts *)

Section PartNames.

Context {collaborators : Collaborators}.

Lemma prefix_other (c : ascii) (s : string) :
  Ascii.eqb c "["%char = false → String.prefix "[part]" (String c s) = false.
Proof.
  intros Hc.
  change (String.prefix "[part]" (String c s))
    with (if ascii_dec "["%char c then String.prefix "part]" s else false).
  destruct (ascii_dec "["%char c) as [<- | _]; [discriminate | done].
Qed.

Lemma replaceAllFrom_cons (rep : string) (c : ascii) (s : string) :
  Js.replaceAllFrom "[part]" rep 0 (String c s)
  = if String.prefix "[part]" (String c s)
    then rep +:+ Js.replaceAllFrom "[part]" rep 5 s
    else String c (Js.replaceAllFrom "[part]" rep 0 s).
Proof. reflexivity. Qed.

Lemma replaceAll_absent (rep s : string) :
  hasChar "["%char s = false → Js.replaceAllFrom "[part]" rep 0 s = s.
Proof.
  induction s as [|c s IH]; [done |].
  intros H. simpl in H. apply orb_false_elim in H as [Hc Hs].
  by rewrite replaceAllFrom_cons, prefix_other, IH.
Qed.

Lemma replaceAll_once (rep pre post : string) :
  hasChar "["%char pre = false →
  hasChar "["%char post = false →
  Js.replaceAll "[part]" rep (pre +:+ "[part]" +:+ post) = pre +:+ rep +:+ post.
Proof.
  unfold Js.replaceAll. intros Hpre Hpost.
  induction pre as [|c pre IH].
  - change (EmptyString +:+ "[part]" +:+ post) with (String "[" ("part]" +:+ post)).
    rewrite replaceAllFrom_cons.
    assert (String.prefix "[part]" (String "[" ("part]" +:+ post)) = true) as ->
      by (simpl; by destruct post).
    change (Js.replaceAllFrom "[part]" rep 5 ("part]" +:+ post))
      with (Js.replaceAllFrom "[part]" rep 0 post).
    by rewrite replaceAll_absent.
  - simpl in Hpre. apply orb_false_elim in Hpre as [Hc Hpre].
    change (Js.replaceAllFrom "[part]" rep 0
              (String c (pre +:+ "[part]" +:+ post))
            = String c (pre +:+ rep +:+ post)).
    by rewrite replaceAllFrom_cons, prefix_other, IH.
Qed.

Lemma to_uint_not_Nil (n : nat) : Nat.to_uint n ≠ Nil.
Proof.
  intros H. pose proof (DecimalNat.Unsigned.of_to n) as Hn.
  rewrite H in Hn. simpl in Hn. subst n. discriminate H.
Qed.

(** Different numbers are written differently. *)
Lemma ofNat_inj (a b : nat) : Js.ofNat a = Js.ofNat b → a = b.
Proof.
  unfold Js.ofNat. intros H.
  apply (f_equal NilZero.uint_of_string) in H.
  rewrite !NilZero.usu in H by apply to_uint_not_Nil.
  injection H as H. apply (f_equal Nat.of_uint) in H.
  by rewrite !DecimalNat.Unsigned.of_to in H.
Qed.

Lemma list_of_app (s1 s2 : string) :
  String.list_ascii_of_string (s1 +:+ s2)
  = String.list_ascii_of_string s1 ++ String.list_ascii_of_string s2.
Proof. induction s1 as [|c s1 IH]; simpl; [done | by rewrite IH]. Qed.

Lemma string_app_inv_tail (s1 s2 t : string) : s1 +:+ t = s2 +:+ t → s1 = s2.
Proof.
  intros H. apply (f_equal String.list_ascii_of_string) in H.
  rewrite !list_of_app in H. apply app_inv_tail in H.
  apply (f_equal String.string_of_list_ascii) in H.
  by rewrite !String.string_of_list_ascii_of_string in H.
Qed.

Lemma inDir_inj (d a b : string) : inDir d a = inDir d b → a = b.
Proof.
  unfold inDir. destruct (hasDir d); [|done].
  intros H. apply String.app_inj in H. by injection H.
Qed.

Lemma inject_assets_nodup (ps : list Source.t) :
  ∀ m p,
    NoDup ((λ file, Js.text (Source.fullname file)) <$> ps) →
    p ∈ ps →
    assets (foldl (λ m file, inject file m) m ps) !! Js.text (Source.fullname p)
    = Some p.
Proof.
  induction ps as [|q ps IH]; intros m p Hnd Hp; [by apply elem_of_nil in Hp |].
  rewrite fmap_cons, NoDup_cons in Hnd. destruct Hnd as [Hq Hnd].
  apply elem_of_cons in Hp as [-> | Hp]; simpl.
  - rewrite inject_assets_other by done. simpl. apply lookup_insert_eq.
  - by apply IH.
Qed.

End PartNames.

Section PartNameProperties.

Context {collaborators : Collaborators}.
Variable options : Options.t.

(** X9.  When the interpolated file-name template of a style sheet holds
    the placeholder [[part]] once and no other bracket, part [i] is named
    by the text before the placeholder, the number [i + 1] and the text
    after it; the full paths of the parts are pairwise different; and
    after the loop over more than one part every part is in the table
    under its full path: no part overwrites another. *)
Theorem part_names_distinct (c : Config.t) (key : string) (asset : Source.t)
    (n : nat) (pre post : string) :
  constructor c = Ok options →
  interpolateName ("/" +:+ key)
    (default "[name]-[part].[ext]" (Config.filename c)) (Source.value asset)
  = pre +:+ "[part]" +:+ post →
  hasChar "["%char pre = false →
  hasChar "["%char post = false →
  let n1 := n + length (split (Source.value asset) (Options.size options)) in
  ∃ entry,
    file options key (Some asset) n = Ok (entry, n1)
    ∧ (∀ i part, Entry.chunks entry !! i = Some part →
         Source.name part = Some (pre +:+ Js.ofNat (i + 1) +:+ post))
    ∧ (∀ i j part_i part_j,
         Entry.chunks entry !! i = Some part_i →
         Entry.chunks entry !! j = Some part_j →
         Source.fullname part_i = Source.fullname part_j → i = j)
    ∧ (1 < length (Entry.chunks entry) →
       ∀ pub m, ∃ importsFile m1,
         importsFileOf pub entry m n1 = Ok ((importsFile, m1), S n1)
         ∧ ∀ part, part ∈ Entry.chunks entry →
             assets m1 !! Js.text (Source.fullname part) = Some part).
Proof.
  intros Hc Htemplate Hpre Hpost n1.
  destruct (constructor_Ok c options Hc) as (_ & Hfilename & _ & _).
  set (source := Source.value asset) in *.
  set (segments := split source (Options.size options)) in *.
  assert (∀ i, Options.filename options (NameArgs.make key source (Some i))
               = pre +:+ Js.ofNat (i + 1) +:+ post) as Hname.
  { intros i. rewrite Hfilename. unfold nameInterpolator.
    cbn [NameArgs.file NameArgs.content NameArgs.index partNumber].
    rewrite Htemplate. by apply replaceAll_once. }
  set (chunks := imap (partAt options key source n) segments).
  assert (∀ i part, chunks !! i = Some part →
            Source.name part = Some (pre +:+ Js.ofNat (i + 1) +:+ post)
            ∧ Source.fullname part
              = Some (inDir (dirname key) (pre +:+ Js.ofNat (i + 1) +:+ post)))
    as Hparts.
  { intros i part. unfold chunks. rewrite list_lookup_imap.
    destruct (segments !! i) as [x|]; [|discriminate].
    intros [= <-]. unfold partAt. simpl. by rewrite Hname. }
  assert (∀ i j part_i part_j,
            chunks !! i = Some part_i → chunks !! j = Some part_j →
            Source.fullname part_i = Source.fullname part_j → i = j) as Hinj.
  { intros i j pi pj Hi Hj Heq.
    destruct (Hparts i pi Hi) as [_ Hfi]. destruct (Hparts j pj Hj) as [_ Hfj].
    rewrite Hfi, Hfj in Heq. injection Heq as Heq.
    apply inDir_inj, String.app_inj, string_app_inv_tail, ofNat_inj in Heq. lia. }
  exists (Entry.make (dirname key) key chunks).
  split; [apply file_Ok |]. split; [intros i part Hi; by apply Hparts |].
  split; [exact Hinj |].
  simpl. intros Hmany pub m.
  exists (Source.make n1 (Js.join Js.newline (importStatement pub <$> chunks)) None None),
    (foldl (λ m file, inject file m) m chunks).
  split.
  { unfold importsFileOf. simpl.
    destruct chunks as [|p [|q r]]; simpl in Hmany; [lia | lia | reflexivity]. }
  intros part Hpart. apply inject_assets_nodup; [|done].
  apply NoDup_alt. intros i j x.
  rewrite !list_lookup_fmap.
  destruct (chunks !! i) as [pi|] eqn:Hi; [|discriminate].
  destruct (chunks !! j) as [pj|] eqn:Hj; [|discriminate].
  simpl. intros [= Hxi] [= Hxj].
  apply (Hinj i j pi pj Hi Hj).
  destruct (Hparts i pi Hi) as [_ Hfi]. destruct (Hparts j pj Hj) as [_ Hfj].
  rewrite Hfi, Hfj in *. simpl in *. congruence.
Qed.

(** X10.  When the interpolated file-name template of a style sheet holds
    no bracket, so no placeholder [[part]], all parts get the same name
    and the same full path.  After the loop over more than one part the
    table holds the last part under that path and none of the others, and
    the file list got the path once for each part. *)
Theorem parts_share_name (c : Config.t) (key : string) (asset : Source.t)
    (n : nat) :
  constructor c = Ok options →
  let source := Source.value asset in
  let name :=
    interpolateName ("/" +:+ key)
      (default "[name]-[part].[ext]" (Config.filename c)) source in
  let segments := split source (Options.size options) in
  let n1 := n + length segments in
  hasChar "["%char name = false →
  ∃ entry,
    file options key (Some asset) n = Ok (entry, n1)
    ∧ (∀ part, part ∈ Entry.chunks entry →
         Source.name part = Some name
         ∧ Source.fullname part = Some (inDir (dirname key) name))
    ∧ (1 < length (Entry.chunks entry) →
       ∀ pub m, ∃ importsFile m1,
         importsFileOf pub entry m n1 = Ok ((importsFile, m1), S n1)
         ∧ assets m1 !! inDir (dirname key) name = last (Entry.chunks entry)
         ∧ files m1
           = files m ++ replicate (length segments) (inDir (dirname key) name)).
Proof.
  intros Hc source name segments n1 Hplain.
  destruct (constructor_Ok c options Hc) as (_ & Hfilename & _ & _).
  assert (∀ i, Options.filename options (NameArgs.make key source (Some i)) = name)
    as Hname.
  { intros i. rewrite Hfilename. unfold nameInterpolator, Js.replaceAll.
    cbn [NameArgs.file NameArgs.content NameArgs.index].
    by apply replaceAll_absent. }
  set (chunks := imap (partAt options key source n) segments).
  assert (∀ part, part ∈ chunks →
            Source.name part = Some name
            ∧ Source.fullname part = Some (inDir (dirname key) name)) as Hparts.
  { intros part (i & Hi)%list_elem_of_lookup_1. revert Hi.
    unfold chunks. rewrite list_lookup_imap.
    destruct (segments !! i) as [x|]; [|discriminate].
    intros [= <-]. unfold partAt. simpl. by rewrite Hname. }
  assert ((λ file, Js.text (Source.fullname file)) <$> chunks
          = replicate (length segments) (inDir (dirname key) name)) as Hnames.
  { rewrite <- (length_imap (partAt options key source n) segments).
    fold chunks. clearbody chunks.
    induction chunks as [|p ps IH]; [done |].
    rewrite fmap_cons. simpl. f_equal.
    - destruct (Hparts p) as [_ ->]; [by left | done].
    - apply IH. intros. apply Hparts. by right. }
  exists (Entry.make (dirname key) key chunks).
  split; [apply file_Ok |]. split; [exact Hparts |].
  simpl. intros Hmany pub m.
  exists (Source.make n1 (Js.join Js.newline (importStatement pub <$> chunks)) None None),
    (foldl (λ m file, inject file m) m chunks).
  split.
  { unfold importsFileOf. simpl.
    destruct chunks as [|p [|q r]]; simpl in Hmany; [lia | lia | reflexivity]. }
  split; [|by rewrite inject_files, Hnames].
  destruct (last chunks) as [p|] eqn:Hlast.
  - apply last_Some in Hlast as [front Hfront]. rewrite Hfront.
    destruct (Hparts p) as [_ Hfull].
    { rewrite Hfront. apply elem_of_app. right. by left. }
    replace (inDir (dirname key) name) with (Js.text (Source.fullname p))
      by (by rewrite Hfull).
    apply inject_assets_last.
  - apply last_None in Hlast. rewrite Hlast in Hmany. simpl in Hmany. lia.
Qed.

End PartNameProperties.

(** ** The manifest after a run *)

Section Consistency.

Context {collaborators : Collaborators}.
Variable options : Options.t.

(** A style sheet all of whose entries in a chunk are dropped, and that
    the chunk registers nothing under, is gone from the file list. *)
Lemma all_dropped_gone (pub : string) (es : list Entry.t)
    (fs fs' : list string) (x : string) :
  droppedNames options es ++ fs' ≡ₚ fs ++ (es ≫= registeredNames options pub) →
  Entry.file <$> es = filter (λ name, isCSS name = true) fs →
  isCSS x = true →
  x ∉ es ≫= registeredNames options pub →
  (∀ e, e ∈ es → Entry.file e = x → isDropped options e = true) →
  x ∉ fs'.
Proof.
  intros Hperm Hfiles Hcss Hlocal Hdropped.
  assert (length (filter (λ y, y = x) (droppedNames options es ++ fs'))
          = length (filter (λ y, y = x)
                      (fs ++ (es ≫= registeredNames options pub)))) as Hcount.
  { by rewrite Hperm. }
  rewrite !filter_app, !length_app in Hcount.
  rewrite (filter_eq_absent _ _ Hlocal),
    (filter_eq_dropped options _ _ Hdropped) in Hcount.
  rewrite <- (filter_eq_css x fs Hcss), <- Hfiles in Hcount.
  simpl in Hcount.
  assert (filter (λ y, y = x) fs' = []) as Hnone.
  { apply length_zero_iff_nil. lia. }
  by apply (filter_nil_not_elem_of _ _ x Hnone).
Qed.

(** X11.  The file list of a chunk after a run holds, up to the order,
    what it held before and every name that an entry of the chunk
    registered, less one occurrence of the original of each entry whose
    original was dropped.  In particular [indexOf] always finds the name to
    take out, so [splice] takes no other name out of the list. *)
Theorem file_list_accounting (compilation : Compilation)
    (chunks chunks' : list (list string)) (table' : gmap string Source.t)
    (n n' k : nat) (fs : list string) :
  chunksMapping options compilation chunks n = Ok ((table', chunks'), n') →
  chunks !! k = Some fs →
  ∃ fs' es,
    chunks' !! k = Some fs'
    ∧ entriesOf options compilation chunks n !! k = Some es
    ∧ droppedNames options es ++ fs'
      ≡ₚ fs ++ (es ≫= registeredNames options (publicPathOf compilation))
    ∧ (∀ x, x ∈ fs → x ∉ droppedNames options es → x ∈ fs').
Proof.
  unfold chunksMapping, entriesOf. intros Hrun Hk.
  destruct (run_chunk _ _ _ _ _ _ _ _ _ _ Hrun Hk)
    as (fs' & es & table_k & Hfs' & Hes & _ & _ & Hperm & _).
  exists fs', es. repeat split; try done.
  intros x Hx Hkept.
  assert (x ∈ droppedNames options es ++ fs') as H.
  { rewrite Hperm. apply elem_of_app. by left. }
  by apply elem_of_app in H as [? | ?].
Qed.

(** The no-reuse condition: no name of a dropped original is a name that
    the run registers an object under. *)
Abbreviation noReuse compilation chunks n :=
  (Forall (λ x, x ∉ namesRegistered options compilation chunks n)
     (droppedNames options (mjoin (entriesOf options compilation chunks n)))).

(** X12.  No dangling names.  When every name that a chunk lists is in the
    asset table at the start and no dropped original's name is registered
    again, then after a run every name that a chunk lists is in the asset
    table. *)
Theorem no_dangling_names (compilation : Compilation)
    (chunks chunks' : list (list string)) (table' : gmap string Source.t)
    (n n' : nat) :
  chunksMapping options compilation chunks n = Ok ((table', chunks'), n') →
  noReuse compilation chunks n →
  Forall (Forall (λ x, is_Some (compilationAssets compilation !! x))) chunks →
  Forall (Forall (λ x, is_Some (table' !! x))) chunks'.
Proof.
  unfold chunksMapping, namesRegistered, entriesOf.
  set (pub := publicPathOf compilation). set (table := compilationAssets compilation).
  intros Hrun Hreuse Hstart.
  rewrite Forall_forall in Hreuse.
  apply Forall_forall. intros fs' Hfs'. apply Forall_forall. intros x Hx.
  apply list_elem_of_lookup_1 in Hfs' as [k Hk'].
  destruct (run_lengths _ _ _ _ _ _ _ _ Hrun) as [Hlen _].
  destruct (lookup_lt_is_Some_2 chunks k) as [fs Hk].
  { rewrite <- Hlen. by eapply lookup_lt_Some. }
  destruct (run_chunk _ _ _ _ _ _ _ _ _ _ Hrun Hk)
    as (fs1 & es & table_k & Hfs1 & Hes & Hfiles & Hbuilt & Hperm & Htable).
  rewrite Hk' in Hfs1. injection Hfs1 as <-.
  assert (es ⊆ mjoin (processed options pub table chunks n)) as Hsub.
  { intros e He. apply list_elem_of_join. exists es. split; [done |].
    by eapply list_elem_of_lookup_2. }
  assert (x ∈ fs ∨ x ∈ es ≫= registeredNames options pub) as Hfrom.
  { apply elem_of_app. rewrite <- Hperm. apply elem_of_app. by right. }
  destruct (decide (x ∈ droppedNames options
                          (mjoin (processed options pub table chunks n))))
    as [Hd | Hd].
  - exfalso.
    pose proof (Hreuse x Hd) as Hfree.
    assert (x ∉ es ≫= registeredNames options pub) as Hlocal.
    { intros (e & ? & He)%list_elem_of_bind. apply Hfree.
      apply list_elem_of_bind. exists e. split; [done | by apply Hsub]. }
    apply list_elem_of_fmap in Hd as (e0 & -> & [Hd0 He0]%list_elem_of_filter).
    destruct (run_entry _ _ _ _ _ _ _ _ _ Hrun He0)
      as (k0 & fs0 & es0 & Hk0 & Hes0 & Hin0).
    destruct (run_chunk _ _ _ _ _ _ _ _ _ _ Hrun Hk0)
      as (? & es0' & table_0 & _ & Hes0' & _ & Hbuilt0 & _ & Htable0).
    rewrite Hes0 in Hes0'. injection Hes0' as <-.
    destruct (built_lookup _ _ _ _ Hbuilt0 Hin0) as (a0 & Ha0 & Hlen0).
    assert (table !! Entry.file e0 = Some a0) as Hstart0.
    { destruct (Htable0 _ Hfree) as [H | H]; rewrite H in Ha0; congruence. }
    revert Hx.
    apply (all_dropped_gone pub es fs fs' (Entry.file e0) Hperm Hfiles);
      [by eapply run_entry_css | done |].
    intros e He Hfile.
    destruct (built_lookup _ _ _ _ Hbuilt He) as (a & Ha & Hlena).
    rewrite Hfile in Ha.
    assert (a = a0) as ->.
    { destruct (Htable _ Hfree) as [H | H]; rewrite H in Ha; congruence. }
    revert Hd0. unfold isDropped. by rewrite Hlen0, Hlena.
  - apply (run_assets_stay options pub chunks x _ _ _ _ _ Hrun Hd).
    destruct Hfrom as [Hin | Hreg].
    + left. rewrite Forall_forall in Hstart.
      pose proof (Hstart fs (list_elem_of_lookup_2 _ _ _ Hk)) as Hfs.
      rewrite Forall_forall in Hfs. by apply Hfs.
    + right. apply list_elem_of_bind in Hreg as (e & ? & He).
      apply list_elem_of_bind. exists e. split; [done | by apply Hsub].
Qed.

(** X13.  No orphans.  When no dropped original's name is registered
    again, every object that is in the asset table after a run and was not
    there under the same name before is listed in a chunk. *)
Theorem new_entries_listed (compilation : Compilation)
    (chunks chunks' : list (list string)) (table' : gmap string Source.t)
    (n n' : nat) (x : string) (a : Source.t) :
  chunksMapping options compilation chunks n = Ok ((table', chunks'), n') →
  noReuse compilation chunks n →
  table' !! x = Some a →
  compilationAssets compilation !! x ≠ Some a →
  ∃ fs', fs' ∈ chunks' ∧ x ∈ fs'.
Proof.
  unfold chunksMapping, namesRegistered, entriesOf.
  set (pub := publicPathOf compilation). set (table := compilationAssets compilation).
  intros Hrun Hreuse Hafter Hbefore.
  rewrite Forall_forall in Hreuse.
  destruct (decide (x ∈ mjoin (processed options pub table chunks n)
                          ≫= registeredNames options pub)) as [Hreg | Hfree].
  - apply list_elem_of_bind in Hreg as (e & Hreg & He).
    destruct (run_entry _ _ _ _ _ _ _ _ _ Hrun He) as (k & fs & es & Hk & Hes & Hin).
    destruct (run_chunk _ _ _ _ _ _ _ _ _ _ Hrun Hk)
      as (fs' & es' & table_k & Hfs' & Hes' & _ & _ & Hperm & _).
    rewrite Hes in Hes'. injection Hes' as <-.
    exists fs'. split; [by eapply list_elem_of_lookup_2 |].
    assert (x ∈ droppedNames options es ++ fs') as H.
    { rewrite Hperm. apply elem_of_app. right.
      apply list_elem_of_bind. by exists e. }
    apply elem_of_app in H as [Hd | ?]; [|done].
    exfalso. apply (Hreuse x).
    + apply list_elem_of_fmap in Hd as (e' & -> & [? He']%list_elem_of_filter).
      apply list_elem_of_fmap. exists e'. split; [done |].
      apply list_elem_of_filter. split; [done |].
      apply list_elem_of_join. exists es. split; [done |].
      by eapply list_elem_of_lookup_2.
    + apply list_elem_of_bind. by exists e.
  - exfalso. rewrite (run_assets _ _ _ _ _ _ _ _ _ Hrun Hfree) in Hafter.
    case_bool_decide; [discriminate | done].
Qed.

End Consistency.

(** ** Objects and their names *)

Section Objects.

Context {collaborators : Collaborators}.
Variable options : Options.t.
Variable pub : string.
Variable table0 : gmap string Source.t.
Variable lo : nat.

Lemma tidy_mono (hi hi' : nat) (table : gmap string Source.t) :
  hi ≤ hi' → tidy table0 lo hi table → tidy table0 lo hi' table.
Proof.
  intros Hhi (H1 & H2 & H3). repeat split; eauto.
  intros x a Ha. specialize (H1 _ _ Ha). lia.
Qed.

Lemma tidy_delete (hi : nat) (table : gmap string Source.t) (x : string) :
  tidy table0 lo hi table → tidy table0 lo hi (delete x table).
Proof.
  intros (H1 & H2 & H3). repeat split.
  - intros y a [_ ?]%lookup_delete_Some. eauto.
  - intros y z a b [_ ?]%lookup_delete_Some [_ ?]%lookup_delete_Some. eauto.
  - intros y a [_ ?]%lookup_delete_Some. eauto.
Qed.

Lemma tidy_insert (hi : nat) (table : gmap string Source.t)
    (x : string) (a : Source.t) :
  tidy table0 lo hi table →
  lo ≤ Source.oid a < hi →
  (∀ y b, table !! y = Some b → Source.oid b ≠ Source.oid a) →
  tidy table0 lo hi (<[x := a]> table).
Proof.
  intros (H1 & H2 & H3) Ha Hfresh. repeat split.
  - intros y b [[_ <-] | [_ Hb]]%lookup_insert_Some; [lia | eauto].
  - intros y z b d [[<- <-] | [Hy Hb]]%lookup_insert_Some
      [[<- <-] | [Hz Hd]]%lookup_insert_Some Heq Hlo; try done.
    + exfalso. by apply (Hfresh _ _ Hd).
    + exfalso. by apply (Hfresh _ _ Hb).
    + eauto.
  - intros y b [[_ <-] | [_ Hb]]%lookup_insert_Some Hold; [lia | eauto].
Qed.

Lemma pending_mono (hi hi' : nat) (table : gmap string Source.t)
    (ps : list Source.t) :
  hi ≤ hi' → pending lo hi table ps → pending lo hi' table ps.
Proof.
  intros Hhi [Hnd Hps]. split; [done |]. intros p Hp.
  destruct (Hps p Hp) as [? ?]. split; [lia | done].
Qed.

Lemma pending_delete (hi : nat) (table : gmap string Source.t) (x : string)
    (ps : list Source.t) :
  pending lo hi table ps → pending lo hi (delete x table) ps.
Proof.
  intros [Hnd Hps]. split; [done |]. intros p Hp.
  destruct (Hps p Hp) as [? Hfresh]. split; [done |].
  intros y b [_ ?]%lookup_delete_Some. eauto.
Qed.

Lemma pending_tail (hi : nat) (table : gmap string Source.t)
    (p : Source.t) (ps : list Source.t) :
  pending lo hi table (p :: ps) → pending lo hi table ps.
Proof.
  unfold pending. rewrite fmap_cons, NoDup_cons. intros [[_ Hnd] Hps].
  split; [done |]. intros q Hq. apply Hps. by right.
Qed.

(** Registering the first of the pending parts. *)
Lemma pending_insert (hi : nat) (table : gmap string Source.t) (x : string)
    (p : Source.t) (ps : list Source.t) :
  pending lo hi table (p :: ps) → pending lo hi (<[x := p]> table) ps.
Proof.
  unfold pending. rewrite fmap_cons, NoDup_cons. intros [[Hp Hnd] Hps].
  split; [done |]. intros q Hq.
  destruct (Hps q) as [? Hfresh]; [by right |]. split; [done |].
  intros y b [[_ <-] | [_ Hb]]%lookup_insert_Some; [|eauto].
  intros Heq. apply Hp. rewrite Heq. by apply list_elem_of_fmap_2.
Qed.

(** Registering an object that was just created. *)
Lemma fresh_tidy (c : nat) (table : gmap string Source.t) (x : string)
    (a : Source.t) (ps : list Source.t) :
  Source.oid a = c →
  lo ≤ c →
  tidy table0 lo c table →
  pending lo c table ps →
  tidy table0 lo (S c) (<[x := a]> table)
  ∧ pending lo (S c) (<[x := a]> table) ps.
Proof.
  intros Ha Hlo Htidy Hpending. split.
  - apply tidy_insert; [apply (tidy_mono c); [lia | done] | lia |].
    destruct Htidy as (H1 & _). intros y b Hb. specialize (H1 _ _ Hb). lia.
  - destruct Hpending as [Hnd Hps]. split; [done |]. intros p Hp.
    destruct (Hps p Hp) as [? Hfresh]. split; [lia |].
    intros y b [[_ <-] | [_ Hb]]%lookup_insert_Some; [lia | eauto].
Qed.

Lemma inject_tidy (hi : nat) (ps rest : list Source.t) :
  ∀ m,
    tidy table0 lo hi (assets m) →
    pending lo hi (assets m) (ps ++ rest) →
    tidy table0 lo hi (assets (foldl (λ m file, inject file m) m ps))
    ∧ pending lo hi (assets (foldl (λ m file, inject file m) m ps)) rest.
Proof.
  induction ps as [|p ps IH]; intros m Htidy Hpending; [done |].
  simpl. apply IH; simpl.
  - destruct Hpending as [_ Hps]. destruct (Hps p) as [? ?]; [by left |].
    by apply tidy_insert.
  - by apply pending_insert.
Qed.

Lemma drop_tidy (hi : nat) (e : Entry.t) (m : Manifest) (ps : list Source.t) :
  tidy table0 lo hi (assets m) →
  pending lo hi (assets m) ps →
  tidy table0 lo hi (assets (dropOriginal options e m))
  ∧ pending lo hi (assets (dropOriginal options e m)) ps.
Proof.
  intros Htidy Hpending. unfold dropOriginal.
  destruct (_ && _); [|done]. cbn [assets].
  split; [by apply tidy_delete | by apply pending_delete].
Qed.

(** One entry: the table stays tidy, and the parts of the later entries
    stay pending. *)
Lemma entry_tidy (e : Entry.t) (rest : list Source.t) (m : Manifest) (c : nat) :
  lo ≤ c →
  tidy table0 lo c (assets m) →
  pending lo c (assets m) (Entry.chunks e ++ rest) →
  let c' := match Entry.chunks e with [_] => c | _ => S c end in
  let m' := registerImports options e (importsFileAt pub e c)
              (dropOriginal options e (injectAll e m)) in
  c ≤ c' ∧ tidy table0 lo c' (assets m') ∧ pending lo c' (assets m') rest.
Proof.
  intros Hlo Htidy Hpending. cbv zeta. rewrite registerImports_names.
  assert ((∃ p, Entry.chunks e = [p])
          ∨ injectAll e m = foldl (λ m file, inject file m) m (Entry.chunks e)
            ∧ (∀ c', importsFileAt pub e c'
                     = Source.make c' (importsContent pub e) None None)
            ∧ match Entry.chunks e with [_] => c | _ => S c end = S c)
    as [[p Hp] | (Hinject & Himports & ->)].
  { unfold injectAll, importsFileAt.
    destruct (Entry.chunks e) as [|p [|q r]]; eauto. }
  - (* one part: it is the imports file *)
    unfold injectAll, importsFileAt. rewrite Hp in *. simpl in Hpending.
    destruct (drop_tidy c e m _ Htidy Hpending) as [H1 H2].
    split; [done |].
    destruct (importsName options pub e) as [|nm ?].
    + split; [done | by apply (pending_tail _ _ p)].
    + cbn [assets]. split; [|by apply pending_insert].
      destruct H2 as [_ Hps]. destruct (Hps p) as [? ?]; [by left |].
      by apply tidy_insert.
  - (* the parts go in, and a new object is the imports file *)
    rewrite Hinject, Himports.
    destruct (inject_tidy c _ rest m Htidy Hpending) as [H1 H2].
    destruct (drop_tidy c e _ _ H1 H2) as [H3 H4].
    split; [lia |].
    destruct (importsName options pub e) as [|nm ?].
    + split; [by apply (tidy_mono c); [lia |] | by apply (pending_mono c); [lia |]].
    + cbn [assets]. by apply fresh_tidy.
Qed.

Lemma forEach_tidy (es : list Entry.t) :
  ∀ m c m' c',
    forEachM (forEntry options pub) es m c = Ok (m', c') →
    lo ≤ c →
    tidy table0 lo c (assets m) →
    pending lo c (assets m) (es ≫= Entry.chunks) →
    c ≤ c' ∧ tidy table0 lo c' (assets m').
Proof.
  induction es as [|e es IH]; intros m c m' c'.
  - by intros [= <- <-].
  - rewrite forEach_cons. intros Hrun Hlo Htidy Hpending.
    destruct (entry_tidy e _ m c Hlo Htidy Hpending)
      as (Hc & H1 & H2).
    destruct (IH _ _ _ _ Hrun) as [Hc' H3]; [lia | done | done |].
    split; [lia | done].
Qed.

Lemma partAt_oids (key source : string) (n : nat) (segments : list string) :
  Source.oid <$> imap (partAt options key source n) segments
  = seq n (length segments).
Proof.
  apply list_eq. intros i. rewrite list_lookup_fmap, list_lookup_imap.
  destruct (segments !! i) as [x|] eqn:Hi; simpl.
  - symmetry. apply lookup_seq_lt. by apply lookup_lt_Some in Hi.
  - symmetry. apply lookup_seq_ge. by apply lookup_ge_None in Hi.
Qed.

(** The parts that [file] creates for the entries of a chunk have
    consecutive identities. *)
Lemma mapiM_file_oids (table : gmap string Source.t) (input : list string) :
  ∀ i n es n',
    mapiM (λ _ name, file options name (table !! name)) i input n = Ok (es, n') →
    n ≤ n' ∧ Source.oid <$> (es ≫= Entry.chunks) = seq n (n' - n).
Proof.
  induction input as [|name input IH]; intros i n es n'; simpl.
  - intros [= <- <-]. by rewrite Nat.sub_diag.
  - intros (e & n1 & He & H)%bind_Ok.
    apply bind_Ok in H as (es1 & n2 & Hes & [= <- <-]).
    apply file_inv in He as (a & Ha & -> & ->).
    destruct (IH _ _ _ _ Hes) as [Hle Hoids].
    split; [lia |].
    cbn [mbind list_bind Entry.chunks]. rewrite fmap_app, partAt_oids.
    change (foldr _ _ es1) with (es1 ≫= Entry.chunks). rewrite Hoids.
    rewrite <- seq_app. f_equal. lia.
Qed.

Lemma forChunk_tidy (m m' : Manifest) (c c' : nat) :
  forChunk options pub m c = Ok (m', c') →
  lo ≤ c →
  tidy table0 lo c (assets m) →
  c ≤ c' ∧ tidy table0 lo c' (assets m').
Proof.
  intros (es & c1 & Hes & Hrun)%bind_Ok Hlo Htidy.
  destruct (mapiM_file_oids _ _ _ _ _ _ Hes) as [Hle Hoids].
  destruct (forEach_tidy es _ _ _ _ Hrun) as [Hle' H]; [lia | | | split; [lia | done]].
  - by apply (tidy_mono c).
  - split; [rewrite Hoids; apply NoDup_seq |].
    intros p Hp.
    assert (Source.oid p ∈ seq c (c1 - c)) as [? ?]%elem_of_seq.
    { rewrite <- Hoids. by apply list_elem_of_fmap_2. }
    split; [lia |].
    destruct Htidy as (H1 & _). intros y b Hb. specialize (H1 _ _ Hb). lia.
Qed.

Lemma run_tidy (chunks : list (list string)) :
  ∀ table c table' chunks' c',
    forChunks options pub table chunks c = Ok ((table', chunks'), c') →
    lo ≤ c →
    tidy table0 lo c table →
    c ≤ c' ∧ tidy table0 lo c' table'.
Proof.
  induction chunks as [|fs rest IH]; intros table c table' chunks' c'.
  - by intros [= <- <- <-].
  - simpl. intros (m & c1 & Hchunk & H)%bind_Ok Hlo Htidy.
    apply bind_Ok in H as ([table1 rest'] & c2 & Hrest & [= <- <- <-]).
    destruct (forChunk_tidy _ _ _ _ Hchunk Hlo Htidy) as [Hle H1].
    destruct (IH _ _ _ _ _ Hrest) as [Hle' H2]; [lia | done |].
    split; [lia | done].
Qed.

End Objects.

Section ObjectProperties.

Context {collaborators : Collaborators}.
Variable options : Options.t.

(** X14 (objects and names).  Let every object of the asset table have an
    identity below [n], the identity of the first object that the run
    creates.  When [chunksMapping] returns, an object that the run created
    is in the table under at most one name, and an object that was there
    before is under no other name than before; the identities in the
    table are all below the next free one. *)
Theorem objects_keep_one_name (compilation : Compilation)
    (chunks chunks' : list (list string)) (table' : gmap string Source.t)
    (n n' : nat) :
  chunksMapping options compilation chunks n = Ok ((table', chunks'), n') →
  (∀ x a, compilationAssets compilation !! x = Some a → Source.oid a < n) →
  n ≤ n'
  ∧ (∀ x a, table' !! x = Some a → Source.oid a < n')
  ∧ (∀ x y a b, table' !! x = Some a → table' !! y = Some b →
       Source.oid a = Source.oid b → n ≤ Source.oid a → x = y)
  ∧ (∀ x a, table' !! x = Some a → Source.oid a < n →
       compilationAssets compilation !! x = Some a).
Proof.
  intros Hrun Hold.
  apply (run_tidy options _ (compilationAssets compilation) n) in Hrun; [done | done |].
  repeat split; [done | | done].
  intros x y a b Ha _ _ Hn. specialize (Hold _ _ Ha). lia.
Qed.

End ObjectProperties.

(** ** The name of the imports file from a template *)

Section ImportsTemplates.

Context {collaborators : Collaborators}.
Variable options : Options.t.

(** X15.  When [imports] is a string whose interpolation for an entry
    holds the placeholder [[part]] once and no other bracket, the imports
    file is registered under the text before the placeholder, [NaN] and
    the text after it, in the directory of the entry: the imports file has
    no part number, and [undefined + 1] is written in its place. *)
Theorem imports_template_part_nan (c : Config.t) (template : string)
    (entry : Entry.t) (importsFile : Source.t) (m : Manifest)
    (pre post : string) :
  constructor c = Ok options →
  Config.imports c = Js.Str template →
  interpolateName ("/" +:+ Entry.file entry) template (Source.value importsFile)
  = pre +:+ "[part]" +:+ post →
  hasChar "["%char pre = false →
  hasChar "["%char post = false →
  let name := inDir (Entry.dirname entry) (pre +:+ "NaN" +:+ post) in
  registerImports options entry importsFile m
  = {| assets := <[name := importsFile]> (assets m);
       files := files m ++ [name] |}.
Proof.
  unfold constructor. intros Hc Himports Hname Hpre Hpost.
  rewrite Himports in Hc. simpl in Hc. injection Hc as <-.
  cbv zeta. unfold registerImports. cbn [Options.imports].
  unfold nameInterpolator.
  cbn [NameArgs.file NameArgs.content NameArgs.index partNumber].
  rewrite Hname, replaceAll_once by done.
  assert (String.eqb (pre +:+ "NaN" +:+ post) EmptyString = false) as ->; [|done].
  by destruct pre.
Qed.

End ImportsTemplates.

(** ** The parts of a style sheet in a run *)

Section Placeholders.

Lemma prefix_cons (a b : ascii) (p s : string) :
  String.prefix (String a p) (String b s)
  = if ascii_dec a b then String.prefix p s else false.
Proof. reflexivity. Qed.

Lemma prefix_nil (s : string) : String.prefix EmptyString s = true.
Proof. by destruct s. Qed.

Lemma prefix_app (p s : string) :
  String.prefix p s = true ↔ ∃ b, s = p +:+ b.
Proof.
  revert s. induction p as [|a p IH]; intros s.
  - rewrite prefix_nil. split; [by exists s | done].
  - destruct s as [|c s].
    + split; [done | by intros [b [=]]].
    + rewrite prefix_cons. destruct (ascii_dec a c) as [<- | Hne].
      * rewrite IH. split; intros [b Hb]; exists b.
        -- by rewrite Hb.
        -- by injection Hb.
      * split; [done | intros [b [= ? _]]; by subst].
Qed.

(** [includes] is what it is called: the pattern occurs somewhere. *)
Lemma includes_spec (pat s : string) :
  includes pat s = true ↔ ∃ a b, s = a +:+ pat +:+ b.
Proof.
  induction s as [|c s IH].
  - change (includes pat EmptyString)
      with (String.prefix pat EmptyString || false).
    rewrite orb_false_r. split.
    + intros [b Hb]%prefix_app. by exists EmptyString, b.
    + intros (a & b & Hab). apply prefix_app.
      destruct a; [by exists b | discriminate].
  - change (includes pat (String c s))
      with (String.prefix pat (String c s) || includes pat s).
    split.
    + intros [[b Hb]%prefix_app | (a & b & Hab)%IH]%orb_true_iff.
      * by exists EmptyString, b.
      * exists (String c a), b. by rewrite Hab.
    + intros (a & b & Hab). apply orb_true_iff. destruct a as [|c' a].
      * left. apply prefix_app. by exists b.
      * right. apply IH. exists a, b. by injection Hab.
Qed.

(** A match of [[part]] does not start in a text without one and run
    into the placeholder that follows it. *)
Lemma no_straddle (c : ascii) (t rest : string) :
  String.prefix "[part]" (String c t) = false →
  String.prefix "[part]" (String c (t +:+ "[part]" +:+ rest)) = false.
Proof.
  intros H.
  destruct t as [|c2 [|c3 [|c4 [|c5 [|c6 t]]]]]; cbn [String.append];
    rewrite ?prefix_cons, ?prefix_nil in *;
    first
      [ exact H
      | repeat
          match goal with
          | |- context [ascii_dec ?a ?b] =>
              destruct (ascii_dec a b) as [Heq | _];
              [try discriminate Heq | reflexivity]
          end ].
Qed.

Lemma replaceAll_none (rep s : string) :
  includes "[part]" s = false → Js.replaceAllFrom "[part]" rep 0 s = s.
Proof.
  induction s as [|c s IH]; [done |].
  change (includes "[part]" (String c s))
    with (String.prefix "[part]" (String c s) || includes "[part]" s).
  intros [Hp Hs]%orb_false_elim.
  by rewrite replaceAllFrom_cons, Hp, IH.
Qed.

Lemma replaceAll_piece (rep piece rest : string) :
  includes "[part]" piece = false →
  Js.replaceAllFrom "[part]" rep 0 (piece +:+ "[part]" +:+ rest)
  = piece +:+ rep +:+ Js.replaceAllFrom "[part]" rep 0 rest.
Proof.
  induction piece as [|c piece IH].
  - intros _.
    change (EmptyString +:+ "[part]" +:+ rest) with (String "[" ("part]" +:+ rest)).
    rewrite replaceAllFrom_cons.
    assert (String.prefix "[part]" (String "[" ("part]" +:+ rest)) = true) as ->
      by (simpl; by destruct rest).
    done.
  - change (includes "[part]" (String c piece))
      with (String.prefix "[part]" (String c piece) || includes "[part]" piece).
    intros [Hp Hs]%orb_false_elim.
    change (String c piece +:+ "[part]" +:+ rest)
      with (String c (piece +:+ "[part]" +:+ rest)).
    rewrite replaceAllFrom_cons, no_straddle, IH by done. done.
Qed.

(** Replacing every [[part]]: the texts between the placeholders stay, and
    the replacement goes between them. *)
Lemma replaceAll_pieces (rep : string) (pieces : list string) :
  Forall (λ piece, includes "[part]" piece = false) pieces →
  Js.replaceAll "[part]" rep (Js.join "[part]" pieces) = Js.join rep pieces.
Proof.
  unfold Js.replaceAll, Js.join.
  induction pieces as [|x xs IH]; [done |].
  intros [Hx Hxs]%Forall_cons. destruct xs as [|y ys].
  - by apply replaceAll_none.
  - change (String.concat ?sep (x :: y :: ys))
      with (x +:+ sep +:+ String.concat sep (y :: ys)).
    by rewrite replaceAll_piece, IH.
Qed.

Lemma length_append (s1 s2 : string) :
  String.length (s1 +:+ s2) = String.length s1 + String.length s2.
Proof. induction s1 as [|c s1 IH]; simpl; [done | by rewrite IH]. Qed.

Lemma join_head (sep piece : string) (pieces : list string) :
  ∃ rest, Js.join sep (piece :: pieces) = piece +:+ rest.
Proof.
  destruct pieces as [|y ys].
  - exists EmptyString. unfold Js.join. simpl. by rewrite string_app_nil_r.
  - by exists (sep +:+ Js.join sep (y :: ys)).
Qed.

(** Every text is texts without a placeholder, with a placeholder between
    each two. *)
Lemma pieces_exist (s : string) :
  ∃ piece pieces,
    s = Js.join "[part]" (piece :: pieces)
    ∧ Forall (λ piece, includes "[part]" piece = false) (piece :: pieces).
Proof.
  assert (∀ n s, String.length s ≤ n →
            ∃ piece pieces,
              s = Js.join "[part]" (piece :: pieces)
              ∧ Forall (λ piece, includes "[part]" piece = false)
                  (piece :: pieces)) as H; [|by apply (H (String.length s))].
  clear s. intros n. induction n as [|n IH]; intros s Hlen.
  - destruct s; [|simpl in Hlen; lia].
    exists EmptyString, []. split; [done | by repeat constructor].
  - destruct s as [|c s]; [exists EmptyString, []; split; [done | by repeat constructor] |].
    destruct (String.prefix "[part]" (String c s)) eqn:Hp.
    + apply prefix_app in Hp as [b Hb].
      destruct (IH b) as (q & qs & Hq & Hall).
      { rewrite Hb, length_append in Hlen. simpl in Hlen. lia. }
      exists EmptyString, (q :: qs). split; [|by constructor].
      rewrite Hb, Hq. reflexivity.
    + destruct (IH s) as (q & qs & Hq & Hall); [simpl in Hlen; lia |].
      exists (String c q), qs. split.
      * rewrite Hq. by destruct qs.
      * apply Forall_cons in Hall as [Hnone Hall]. constructor; [|done].
        change (includes "[part]" (String c q))
          with (String.prefix "[part]" (String c q) || includes "[part]" q).
        rewrite Hnone, orb_false_r.
        destruct (String.prefix "[part]" (String c q)) eqn:Hq'; [|done].
        apply prefix_app in Hq' as [b Hb].
        destruct (join_head "[part]" q qs) as [rest Hrest].
        rewrite <- Hp. symmetry. apply prefix_app.
        exists (b +:+ rest).
        rewrite Hq, Hrest, <- string_app_assoc, <- Hb. reflexivity.
Qed.

End Placeholders.

Section PartsInOrder.

Context {collaborators : Collaborators}.
Variable options : Options.t.
Variable pub : string.

Lemma splice1_app (x : string) (l l' : list string) :
  x ∈ l →
  splice1 (indexOf x (l ++ l')) (l ++ l') = splice1 (indexOf x l) l ++ l'.
Proof.
  induction l as [|y l IH]; [by intros ?%elem_of_nil |].
  intros Hx. simpl. case_decide as Hy; [done |].
  apply elem_of_cons in Hx as [-> | Hx]; [done |].
  specialize (IH Hx).
  destruct (indexOf_elem x l Hx) as (i & Hi & _).
  destruct (indexOf_elem x (l ++ l')) as (j & Hj & _);
    [apply elem_of_app; by left |].
  rewrite Hi, Hj in *. simpl in *. by rewrite IH.
Qed.

(** The file list after one entry: the original goes, if it is dropped,
    and what the entry registers comes last. *)
Lemma entry_files_order (e : Entry.t) (m : Manifest) (n : nat)
    (old new : list string) :
  files m = old ++ new →
  (isDropped options e = true → Entry.file e ∈ old) →
  ∃ old',
    old' `sublist_of` old
    ∧ (if isDropped options e then [Entry.file e] else []) ++ old' ≡ₚ old
    ∧ files (registerImports options e (importsFileAt pub e n)
               (dropOriginal options e (injectAll e m)))
      = old' ++ new ++ registeredNames options pub e.
Proof.
  intros Hfiles Hin.
  assert (∃ old',
            old' `sublist_of` old
            ∧ (if isDropped options e then [Entry.file e] else []) ++ old' ≡ₚ old
            ∧ files (dropOriginal options e (injectAll e m))
              = old' ++ new ++ partNames e) as (old' & Hsub & Hperm & Hdrop).
  { unfold dropOriginal. fold (isDropped options e).
    destruct (isDropped options e); cbn [files].
    - specialize (Hin eq_refl).
      exists (splice1 (indexOf (Entry.file e) old) old).
      split; [|split].
      + destruct (indexOf_elem _ _ Hin) as (i & -> & _). apply sublist_delete.
      + by apply splice1_indexOf.
      + rewrite injectAll_files, Hfiles, <- List.app_assoc.
        by apply splice1_app.
    - exists old. split; [done |]. split; [done |].
      by rewrite injectAll_files, Hfiles, <- List.app_assoc. }
  exists old'. split; [done |]. split; [done |].
  rewrite registerImports_names. unfold registeredNames.
  destruct (importsName_cases options pub e) as [-> | [nm ->]].
  - by rewrite List.app_nil_r.
  - cbn [files]. rewrite Hdrop. by rewrite <- !List.app_assoc.
Qed.

Lemma forEach_files_order (es : list Entry.t) :
  ∀ m n m' n' old new,
    forEachM (forEntry options pub) es m n = Ok (m', n') →
    files m = old ++ new →
    droppedNames options es ⊆+ old →
    ∃ old',
      old' `sublist_of` old
      ∧ files m' = old' ++ new ++ (es ≫= registeredNames options pub).
Proof.
  induction es as [|e es IH]; intros m n m' n' old new.
  - intros [= <- <-] Hfiles _. exists old. split; [done |].
    by rewrite Hfiles, List.app_nil_r.
  - rewrite forEach_cons, bind_cons, dropped_cons. intros Hrun Hfiles Hsub.
    destruct (entry_files_order e m n old new Hfiles)
      as (old1 & Hsub1 & Hperm1 & Hfiles1).
    { intros Hd. rewrite Hd in Hsub.
      eapply elem_of_submseteq; [|exact Hsub]. by left. }
    destruct (IH _ _ _ _ old1 (new ++ registeredNames options pub e)
                Hrun Hfiles1) as (old' & Hsub' & Hfiles').
    { apply (submseteq_app_inv_l _ _
               (if isDropped options e then [Entry.file e] else [])).
      by rewrite Hperm1. }
    exists old'. split; [by transitivity old1 |].
    by rewrite Hfiles', <- List.app_assoc.
Qed.

Lemma forEach_app_inv (es1 es2 : list Entry.t) :
  ∀ m n m' n',
    forEachM (forEntry options pub) (es1 ++ es2) m n = Ok (m', n') →
    ∃ m1 n1,
      forEachM (forEntry options pub) es1 m n = Ok (m1, n1)
      ∧ forEachM (forEntry options pub) es2 m1 n1 = Ok (m', n').
Proof.
  induction es1 as [|e es1 IH]; intros m n m' n'.
  - intros H. by exists m, n.
  - rewrite <- List.app_comm_cons, !forEach_cons. apply IH.
Qed.

(** Part [i] after the loop over the parts, when no later part has its
    full path. *)
Lemma inject_assets_at (ps : list Source.t) (i : nat) (part : Source.t)
    (m : Manifest) :
  ps !! i = Some part →
  (∀ j part_j, i < j → ps !! j = Some part_j →
     Js.text (Source.fullname part_j) ≠ Js.text (Source.fullname part)) →
  assets (foldl (λ m file, inject file m) m ps)
    !! Js.text (Source.fullname part) = Some part.
Proof.
  intros Hi Hlater.
  rewrite <- (take_drop (S i) ps) at 1. rewrite foldl_app.
  rewrite inject_assets_other.
  - rewrite (take_S_r _ _ _ Hi). apply inject_assets_last.
  - intros (q & Heq & Hq)%list_elem_of_fmap.
    apply list_elem_of_lookup in Hq as [j Hj]. rewrite lookup_drop in Hj.
    apply (Hlater (S i + j) q); [lia | done | done].
Qed.

(** Part [i] after its entry. *)
Lemma entry_assets_part (e : Entry.t) (m : Manifest) (n i : nat)
    (part : Source.t) :
  1 < length (Entry.chunks e) →
  Entry.chunks e !! i = Some part →
  (∀ j part_j, i < j → Entry.chunks e !! j = Some part_j →
     Js.text (Source.fullname part_j) ≠ Js.text (Source.fullname part)) →
  Js.text (Source.fullname part) ∉ importsName options pub e →
  ¬ (isDropped options e = true ∧ Js.text (Source.fullname part) = Entry.file e) →
  assets (registerImports options e (importsFileAt pub e n)
            (dropOriginal options e (injectAll e m)))
    !! Js.text (Source.fullname part) = Some part.
Proof.
  intros Hmany Hi Hlater Himports Hkeep.
  assert (assets (injectAll e m) !! Js.text (Source.fullname part) = Some part)
    as Hin.
  { unfold injectAll. revert Hmany Hi Hlater.
    destruct (Entry.chunks e) as [|p [|q r]]; simpl; [lia | lia |].
    intros _ Hi Hlater. by apply (inject_assets_at (p :: q :: r) i). }
  assert (assets (dropOriginal options e (injectAll e m))
            !! Js.text (Source.fullname part) = Some part) as Hdrop.
  { unfold dropOriginal. fold (isDropped options e).
    destruct (isDropped options e) eqn:Hd; cbn [assets]; [|done].
    by rewrite lookup_delete_ne by (intros Heq; by apply Hkeep). }
  rewrite registerImports_names.
  destruct (importsName_cases options pub e) as [Hnone | [nm Hnm]].
  - by rewrite Hnone.
  - rewrite Hnm in *. cbn [assets].
    rewrite lookup_insert_ne; [done |].
    intros Heq. apply Himports. rewrite <- Heq. by left.
Qed.

(** A run, taken apart at chunk [k]: the table [table_k] that the chunk
    starts with, its entries, the loop over them, and the rest of the
    run. *)
Lemma run_at (chunks : list (list string)) :
  ∀ table n table' chunks' n' k fs,
    forChunks options pub table chunks n = Ok ((table', chunks'), n') →
    chunks !! k = Some fs →
    ∃ table_k n_k es n_e m n_m rest',
      entriesFor options {| assets := table_k; files := fs |} n_k = Ok (es, n_e)
      ∧ forEachM (forEntry options pub) es
          {| assets := table_k; files := fs |} n_e = Ok (m, n_m)
      ∧ forChunks options pub (assets m) (drop (S k) chunks) n_m
        = Ok ((table', rest'), n')
      ∧ chunks' !! k = Some (files m)
      ∧ processed options pub table chunks n !! k = Some es
      ∧ drop (S k) (processed options pub table chunks n)
        = processed options pub (assets m) (drop (S k) chunks) n_m
      ∧ (∀ name,
           name ∉ mjoin (processed options pub table chunks n)
                    ≫= registeredNames options pub →
           table_k !! name = table !! name ∨ table_k !! name = None).
Proof.
  induction chunks as [|fs0 rest IH]; intros table n table' chunks' n' k fs;
    [by intros _ [=] |].
  intros Hrun.
  destruct (forChunks_cons_inv _ _ _ _ _ _ _ _ _ Hrun)
    as (m & n1 & rest' & es & Hchunk & Hrest & -> & Hproc & _ & _ & _ & Hm).
  apply bind_Ok in Hchunk as (es0 & n0 & Hes & Hloop).
  assert (es0 = es) as ->.
  { revert Hproc. simpl. rewrite Hes. by intros [= ->]. }
  destruct k as [|k].
  - intros [= <-]. exists table, n, es, n0, m, n1, rest'.
    rewrite Hproc. repeat split; try done. intros name _. by left.
  - intros Hk. change ((fs0 :: rest) !! S k) with (rest !! k) in Hk.
    destruct (IH _ _ _ _ _ _ _ Hrest Hk)
      as (table_k & n_k & es_k & n_e & m_k & n_m & rest_k
          & H1 & H2 & H3 & H4 & H5 & H6 & H7).
    exists table_k, n_k, es_k, n_e, m_k, n_m, rest_k.
    rewrite Hproc. repeat split; try done.
    intros name. rewrite join_cons, bind_app, not_elem_of_app.
    intros [Hes' Hlater].
    destruct (H7 name Hlater) as [-> | ->]; [|by right].
    rewrite (Hm name Hes'). case_bool_decide; [by right | by left].
Qed.

End PartsInOrder.

Section PartsRegistered.

Context {collaborators : Collaborators}.
Variable options : Options.t.

(** C6, as the code has it.  Let [e] be an entry of chunk [k] of a run
    that returns, made of the style sheet [key] with the content of
    [asset].  The part made of segment [i] (counted from 0) is named by
    the interpolated file-name template with every [[part]] replaced by
    the number [i + 1]: when the interpolated template is the texts
    [pieces] with a placeholder between each two, no text holding one,
    the name is these texts with the number between each two, and every
    interpolated template is such texts.  The full path is the name behind
    the directory of [key] and a slash exactly when that directory is
    neither empty nor a dot.  When there is more than one part, the file
    list of the chunk after the run is what is left of the old list, what
    the earlier entries of the chunk registered, the full paths of the
    parts in their order, the name of the entry's imports file if it has
    one, and what the later entries of the chunk registered; and the asset
    table after the run holds part [i] under its full path provided no
    later part of the entry has that full path, it is not the name of the
    entry's imports file, no later entry of the run registers anything
    under it, and it is not the name of an original that the entry or a
    later one drops. *)
Theorem parts_named_and_registered (c : Config.t) (compilation : Compilation)
    (chunks chunks' : list (list string)) (table' : gmap string Source.t)
    (n n' k : nat) (fs : list string) (es1 es2 : list Entry.t) (e : Entry.t) :
  constructor c = Ok options →
  chunksMapping options compilation chunks n = Ok ((table', chunks'), n') →
  chunks !! k = Some fs →
  entriesOf options compilation chunks n !! k = Some (es1 ++ e :: es2) →
  let pub := publicPathOf compilation in
  let key := Entry.file e in
  let dir := dirname key in
  let template := default "[name]-[part].[ext]" (Config.filename c) in
  let later := es2 ++ mjoin (drop (S k) (entriesOf options compilation chunks n)) in
  let fullpaths := (λ part, Js.text (Source.fullname part)) <$> Entry.chunks e in
  ∃ asset fs',
    key ∈ fs
    ∧ isCSS key = true
    ∧ Entry.dirname e = dir
    ∧ (key ∉ namesRegistered options compilation chunks n →
       compilationAssets compilation !! key = Some asset)
    ∧ length (Entry.chunks e)
      = length (split (Source.value asset) (Options.size options))
    ∧ (∀ i part, Entry.chunks e !! i = Some part →
         split (Source.value asset) (Options.size options) !! i
         = Some (Source.value part)
         ∧ (∀ pieces,
              interpolateName ("/" +:+ key) template (Source.value asset)
              = Js.join "[part]" pieces →
              Forall (λ piece, includes "[part]" piece = false) pieces →
              Source.name part = Some (Js.join (Js.ofNat (i + 1)) pieces))
         ∧ (∃ pieces,
              interpolateName ("/" +:+ key) template (Source.value asset)
              = Js.join "[part]" pieces
              ∧ Forall (λ piece, includes "[part]" piece = false) pieces
              ∧ Source.name part = Some (Js.join (Js.ofNat (i + 1)) pieces))
         ∧ ∃ name,
             Source.name part = Some name
             ∧ Source.fullname part
               = Some (if bool_decide (dir ≠ EmptyString ∧ dir ≠ ".")
                       then dir +:+ "/" +:+ name else name))
    ∧ chunks' !! k = Some fs'
    ∧ (1 < length (Entry.chunks e) →
       (∃ kept,
          kept `sublist_of` fs
          ∧ fs' = kept ++ (es1 ≫= registeredNames options pub)
                    ++ fullpaths ++ importsName options pub e
                    ++ (es2 ≫= registeredNames options pub))
       ∧ ∀ i part, Entry.chunks e !! i = Some part →
           let x := Js.text (Source.fullname part) in
           (∀ j part_j, i < j → Entry.chunks e !! j = Some part_j →
              Js.text (Source.fullname part_j) ≠ x) →
           x ∉ importsName options pub e →
           x ∉ later ≫= registeredNames options pub →
           x ∉ droppedNames options (e :: later) →
           table' !! x = Some part).
Proof.
  unfold chunksMapping, entriesOf, namesRegistered.
  intros Hc Hrun Hk Hes. cbv zeta.
  set (pub := publicPathOf compilation) in *.
  set (table := compilationAssets compilation) in *.
  destruct (constructor_Ok c options Hc) as (_ & Hfilename & _ & _).
  destruct (run_at options pub chunks _ _ _ _ _ _ _ Hrun Hk)
    as (table_k & n_k & es & n_e & m & n_m & rest'
        & Hentries & Hloop & Hrest & Hfs' & Hproc & Hdrop & Htable).
  rewrite Hes in Hproc. injection Hproc as <-.
  destruct (entriesFor_inv _ _ _ _ _ Hentries) as [Hfiles Hbuilt].
  cbn [files assets] in Hfiles, Hbuilt.
  assert (e ∈ es1 ++ e :: es2) as He.
  { apply elem_of_app. right. by left. }
  assert (Entry.file e ∈ filter (λ name, isCSS name = true) fs) as Hkey.
  { rewrite <- Hfiles. by apply list_elem_of_fmap_2. }
  apply list_elem_of_filter in Hkey as [Hcss Hkey].
  rewrite Forall_forall in Hbuilt.
  destruct (Hbuilt e He) as (a & n0 & Ha & Hshape).
  set (key := Entry.file e) in *.
  set (segments := split (Source.value a) (Options.size options)) in *.
  assert (Entry.chunks e = imap (partAt options key (Source.value a) n0) segments)
    as Hchunks by (by rewrite Hshape).
  exists a, (files m).
  split; [done |]. split; [done |].
  split; [by rewrite Hshape |].
  split.
  { intros Hname. destruct (Htable key Hname) as [H | H];
      rewrite H in Ha; [done | discriminate]. }
  split; [by rewrite Hchunks, length_imap |].
  split.
  { intros i part. rewrite Hchunks, list_lookup_imap.
    destruct (segments !! i) as [x|] eqn:Hx; [|discriminate].
    intros [= <-]. unfold partAt. cbn [Source.value Source.name Source.fullname].
    assert (∀ pieces,
              interpolateName ("/" +:+ key)
                (default "[name]-[part].[ext]" (Config.filename c))
                (Source.value a) = Js.join "[part]" pieces →
              Forall (λ piece, includes "[part]" piece = false) pieces →
              Some (Options.filename options
                      (NameArgs.make key (Source.value a) (Some i)))
              = Some (Js.join (Js.ofNat (i + 1)) pieces)) as Hname.
    { intros pieces Hpieces Hnone. rewrite Hfilename. unfold nameInterpolator.
      cbn [NameArgs.file NameArgs.content NameArgs.index partNumber].
      by rewrite Hpieces, replaceAll_pieces. }
    split; [exact Hx |]. split; [exact Hname |]. split.
    - destruct (pieces_exist
                  (interpolateName ("/" +:+ key)
                     (default "[name]-[part].[ext]" (Config.filename c))
                     (Source.value a))) as (q & qs & Hq & Hall).
      exists (q :: qs). split; [done |]. split; [done |]. by apply Hname.
    - eexists. split; [done |]. unfold inDir. by rewrite hasDir_spec. }
  split; [done |].
  intros Hmany. split.
  - destruct (forEach_files_order options pub _ _ _ _ _ fs [] Hloop)
      as (kept & Hsub & Hlist).
    + cbn [files]. by rewrite List.app_nil_r.
    + unfold droppedNames. transitivity (Entry.file <$> es1 ++ e :: es2).
      * apply sublist_submseteq, fmap_sublist, sublist_filter.
      * rewrite Hfiles. apply sublist_submseteq, sublist_filter.
    + exists kept. split; [done |].
      rewrite Hlist, bind_app, bind_cons. cbn [app].
      unfold registeredNames at 2, partNames. revert Hmany.
      destruct (Entry.chunks e) as [|p [|q r]]; simpl; [lia | lia |].
      intros _. by rewrite <- !List.app_assoc.
  - intros i part Hi Hparts Himports.
    rewrite bind_app, not_elem_of_app, dropped_cons, dropped_app.
    rewrite !not_elem_of_app. intros [Hlater2 Hlater] (Hde & Hd2 & Hd).
    apply forEach_app_inv in Hloop as (m1 & n1 & _ & Hloop).
    rewrite forEach_cons in Hloop.
    rewrite Hdrop in Hlater, Hd.
    rewrite (run_assets options pub _ _ _ _ _ _ _ Hrest Hlater).
    rewrite bool_decide_eq_false_2 by done.
    rewrite (forEach_assets_other options pub es2 _ _ _ _ _ Hloop Hlater2).
    rewrite bool_decide_eq_false_2 by done.
    apply (entry_assets_part options pub e m1 n1 i part Hmany Hi Hparts Himports).
    intros [Hdropped Heq]. rewrite Hdropped in Hde. apply Hde.
    rewrite Heq. by left.
Qed.

End PartsRegistered.

(** ** The small build and its variants *)

Section MoreExamples.

#[local] Existing Instance Sample.collaborators.

Import Scenario.

Lemma each_name (P : list string → string → Prop) (l : list (list string)) :
  Forall (λ fs, Forall (P fs) fs) l →
  ∀ fs name, fs ∈ l → name ∈ fs → P fs name.
Proof.
  intros Hall fs name Hfs Hname.
  rewrite Forall_forall in Hall. specialize (Hall fs Hfs).
  rewrite Forall_forall in Hall. by apply Hall.
Qed.

(** C6 as stated fails: the chunk lists [styles.css] and [styles-1.css],
    both split in two.  The first part of [styles.css] is registered under
    [styles-1.css]; the entry of the second style sheet, built before, then
    drops its original of that name.  After the run the chunk lists
    [styles-1.css] and the table has nothing under it. *)
Lemma part_dropped_with_later_original :
  let options := plugin (config 1 (Js.Boolean false) (Js.Boolean false)) in
  let part := Source.make 2 "a{}" (Some "styles-1.css") (Some "styles-1.css") in
  ∃ table' fs' n' e later,
    chunksMapping options Variants.clashing Variants.clashingChunks 2
    = Ok ((table', [fs']), n')
    ∧ entriesOf options Variants.clashing Variants.clashingChunks 2
      = [e :: later]
    ∧ Entry.file e = "styles.css"
    ∧ 1 < length (Entry.chunks e)
    ∧ Entry.chunks e !! 0 = Some part
    ∧ Source.fullname part = Some "styles-1.css"
    ∧ fs' = ["styles-1.css"; "styles-2.css"; "styles-1-1.css"; "styles-1-2.css"]
    ∧ table' !! "styles-1.css" = None
    ∧ table' !! "styles-1.css" ≠ Some part.
Proof.
  intros options part. do 5 eexists.
  split; [by vm_compute |].
  split; [by vm_compute |].
  repeat split; first [by vm_compute | compute_done].
Qed.

(** C6 at work: the style sheet of the small build, split in two, with
    [imports: false].  Its first part is [styles-1.css], it is in the
    table under that name after the run, and the two full paths are in
    the file list in their order. *)
Lemma parts_named_and_registered_witness :
  let c := config 1 (Js.Boolean false) (Js.Boolean false) in
  let part := Source.make 2 "a{}" (Some "styles-1.css") (Some "styles-1.css") in
  Source.name part = Some (Js.join (Js.ofNat 1) ["styles-"; ".css"])
  ∧ assetsAfter (plugin c) !! "styles-1.css" = Some part
  ∧ ∃ kept,
      kept `sublist_of` ["main.js"; "styles.css"]
      ∧ chunksAfter (plugin c) !! 0
        = Some (kept ++ ["styles-1.css"; "styles-2.css"]).
Proof.
  intros c part.
  set (e := Entry.make "." "styles.css"
              [part; Source.make 3 "b{}" (Some "styles-2.css") (Some "styles-2.css")]).
  destruct (parts_named_and_registered (plugin c) c compilation chunks
              (chunksAfter (plugin c)) (assetsAfter (plugin c)) 2
              (nextAfter (plugin c)) 0 ["main.js"; "styles.css"] [] [] e)
    as (asset & fs' & _ & _ & _ & Hasset & _ & Hparts & Hfs' & Hmany).
  - reflexivity.
  - apply run_returns. by vm_compute.
  - reflexivity.
  - by vm_compute.
  - destruct (Hparts 0 part eq_refl) as (_ & Hname & _).
    destruct Hmany as [(kept & Hkept & Hlist) Htable]; [compute_done |].
    split; [|split].
    + apply Hname; [|by repeat constructor].
      assert (table !! "styles.css" = Some asset) as Ha
        by (apply Hasset; compute_done).
      injection Ha as <-. reflexivity.
    + apply (Htable 0 part eq_refl).
      * intros [|[|j]] part_j Hj Hlook; [lia | | discriminate Hlook].
        injection Hlook as <-. compute_done.
      * compute_done.
      * compute_done.
      * compute_done.
    + exists kept. split; [done |]. by rewrite Hfs', Hlist.
Defined.

(** X1 at work: a chunk with the script only. *)
Lemma no_css_untouched_witness :
  let options := plugin (config 1 (Js.Boolean true) Js.Undefined) in
  chunksMapping options compilation Variants.scriptsOnly 2
  = Ok ((table, Variants.scriptsOnly), 2).
Proof.
  intros options.
  apply (no_css_untouched options compilation Variants.scriptsOnly 2).
  apply each_name. compute_done.
Defined.

(** X3 at work: with [preserve: true] the two chunks that share the
    style sheet are both rewritten. *)
Lemma preserve_run_returns_witness :
  let options := plugin (config 1 (Js.Boolean true) (Js.Boolean true)) in
  ∃ table' chunks' n',
    chunksMapping options compilation Variants.shared 2
    = Ok ((table', chunks'), n').
Proof.
  intros options.
  apply (preserve_run_returns options compilation Variants.shared 2).
  - reflexivity.
  - apply (each_name (λ _ name, isCSS name = true → is_Some (table !! name))).
    compute_done.
Defined.

(** X4 at work: the second chunk lists [print.css], which is not in the
    table and is not a name of a part or of the imports file of
    [styles.css]. *)
Lemma missing_asset_throws_witness :
  let options := plugin (config 1 (Js.Boolean true) (Js.Boolean true)) in
  chunksMapping options compilation Variants.withMissing 2 = Throw TypeError.
Proof.
  intros options.
  apply (missing_asset_throws options compilation Variants.withMissing 2 1
           ["print.css"] "print.css").
  - reflexivity.
  - compute_done.
  - reflexivity.
  - reflexivity.
  - compute_done.
Defined.

(** X5 at work: the style sheet is split in two, and the second chunk
    that lists it finds it gone. *)
Lemma shared_sheet_throws_witness :
  let options := plugin (config 1 (Js.Boolean false) (Js.Boolean false)) in
  chunksMapping options compilation Variants.shared 2 = Throw TypeError.
Proof.
  intros options.
  apply (shared_sheet_throws options compilation Variants.shared 2 0 1
           ["main.js"; "styles.css"] ["styles.css"] "styles.css"
           (host 0 "a{}b{}")).
  - reflexivity.
  - lia.
  - reflexivity.
  - reflexivity.
  - compute_done.
  - compute_done.
  - reflexivity.
  - reflexivity.
  - compute_done.
  - compute_done.
Defined.

(** X6 at work: the default limit, under which the style sheet is one
    segment, and [imports: false]. *)
Lemma unsplit_build_untouched_witness :
  let c := config 4000 (Js.Boolean false) Js.Undefined in
  ∃ n', chunksMapping (plugin c) compilation chunks 2
        = Ok ((table, chunks), n').
Proof.
  intros c.
  apply (unsplit_build_untouched (plugin c) c compilation chunks 2).
  - reflexivity.
  - by left.
  - apply (each_name (λ _ name, isCSS name = true →
             ∃ a, table !! name = Some a
                  ∧ length (split (Source.value a) (Options.size (plugin c))) = 1)).
    repeat apply Forall_cons_2; try apply Forall_nil_2.
    + intros [=].
    + intros _. by exists (host 0 "a{}b{}").
Defined.

(** X7 at work: a style sheet in the directory [css]; the imports file
    goes under [css/css/styles.css]. *)
Lemma default_imports_name_witness :
  let c := config 1 (Js.Boolean true) (Js.Boolean false) in
  let m := {| assets := table; files := ["main.js"; "css/styles.css"] |} in
  ∃ entry importsFile m' n',
    file (plugin c) "css/styles.css" (Some (host 0 "a{}b{}")) 2 = Ok (entry, 4)
    ∧ forEntry (plugin c) "/foo" entry m 4 = Ok (m', n')
    ∧ assets m' !! "css/css/styles.css" = Some importsFile
    ∧ last (files m') = Some "css/css/styles.css".
Proof.
  intros c m.
  destruct (default_imports_name (plugin c) c "css/styles.css"
              (host 0 "a{}b{}") 2 "/foo" m)
    as (entry & importsFile & m' & n' & Hfile & Hrun & _ & Hin & Hlast);
    [reflexivity | reflexivity | reflexivity | done |].
  by exists entry, importsFile, m', n'.
Defined.

(** X8 at work: a splitter that returns no segment, and [imports: true]. *)
Lemma no_segment_entry_witness :
  let options := plugin (config 1 (Js.Boolean true) (Js.Boolean true)) in
  let m := {| assets := table; files := ["main.js"; "styles.css"] |} in
  ∃ entry m',
    file (collaborators := Variants.silent) options "styles.css"
      (Some (host 0 "a{}b{}")) 2 = Ok (entry, 2)
    ∧ Entry.chunks entry = []
    ∧ forEntry options "/foo" entry m 2
      = Ok (m', 3).
Proof.
  intros options m.
  destruct (no_segment_entry (collaborators := Variants.silent) options
              "styles.css" (host 0 "a{}b{}") 2 "/foo" m)
    as (entry & m' & Hfile & Hnone & Hrun & _); [reflexivity |].
  by exists entry, m'.
Defined.

(** X9 at work: the default template on [styles.css]. *)
Lemma part_names_distinct_witness :
  let c := config 1 (Js.Boolean true) (Js.Boolean false) in
  ∃ entry,
    file (plugin c) "styles.css" (Some (host 0 "a{}b{}")) 2 = Ok (entry, 4)
    ∧ (∀ i part, Entry.chunks entry !! i = Some part →
         Source.name part = Some ("styles-" +:+ Js.ofNat (i + 1) +:+ ".css")).
Proof.
  intros c.
  destruct (part_names_distinct (plugin c) c "styles.css" (host 0 "a{}b{}") 2
              "styles-" ".css")
    as (entry & Hfile & Hnames & _);
    [reflexivity | reflexivity | reflexivity | reflexivity |].
  by exists entry.
Defined.

(** X10 at work: the template [[name].[ext]] has no part number, and both
    parts are named [styles.css]. *)
Lemma parts_share_name_witness :
  let c := Variants.named 1 "[name].[ext]" in
  ∃ entry,
    file (plugin c) "styles.css" (Some (host 0 "a{}b{}")) 2 = Ok (entry, 4)
    ∧ (∀ part, part ∈ Entry.chunks entry →
         Source.name part = Some "styles.css"
         ∧ Source.fullname part = Some "styles.css").
Proof.
  intros c.
  destruct (parts_share_name (plugin c) c "styles.css" (host 0 "a{}b{}") 2)
    as (entry & Hfile & Hnames & _); [reflexivity | reflexivity |].
  by exists entry.
Defined.

(** X11 at work: the chunk of the small build, the imports file named
    [all.css]. *)
Lemma file_list_accounting_witness :
  let options := plugin (config 1 (Js.Str "all.css") (Js.Boolean false)) in
  ∃ fs' es,
    chunksAfter options !! 0 = Some fs'
    ∧ entriesOf options compilation chunks 2 !! 0 = Some es
    ∧ droppedNames options es ++ fs'
      ≡ₚ ["main.js"; "styles.css"] ++ (es ≫= registeredNames options "/foo")
    ∧ (∀ x, x ∈ ["main.js"; "styles.css"] → x ∉ droppedNames options es →
         x ∈ fs').
Proof.
  intros options.
  apply (file_list_accounting options compilation chunks (chunksAfter options)
           (assetsAfter options) 2 (nextAfter options) 0).
  - apply run_returns. by vm_compute.
  - reflexivity.
Defined.

(** X12 at work: after the run every name of the chunk is in the table. *)
Lemma no_dangling_names_witness :
  let options := plugin (config 1 (Js.Str "all.css") (Js.Boolean false)) in
  Forall (Forall (λ x, is_Some (assetsAfter options !! x))) (chunksAfter options).
Proof.
  intros options.
  apply (no_dangling_names options compilation chunks (chunksAfter options)
           (assetsAfter options) 2 (nextAfter options)).
  - apply run_returns. by vm_compute.
  - compute_done.
  - compute_done.
Defined.

(** X13 at work: the first part is new in the table, and the chunk lists
    it. *)
Lemma new_entries_listed_witness :
  let options := plugin (config 1 (Js.Str "all.css") (Js.Boolean false)) in
  ∃ fs', fs' ∈ chunksAfter options ∧ "styles-1.css" ∈ fs'.
Proof.
  intros options.
  apply (new_entries_listed options compilation chunks (chunksAfter options)
           (assetsAfter options) 2 (nextAfter options) "styles-1.css"
           (Source.make 2 "a{}" (Some "styles-1.css") (Some "styles-1.css"))).
  - apply run_returns. by vm_compute.
  - compute_done.
  - by vm_compute.
  - by vm_compute.
Defined.

(** X14 at work: the two objects of the small build have the identities
    0 and 1, and the run starts at 2. *)
Lemma objects_keep_one_name_witness :
  let options := plugin (config 1 (Js.Boolean true) (Js.Boolean false)) in
  2 ≤ nextAfter options
  ∧ (∀ x a, assetsAfter options !! x = Some a → Source.oid a < nextAfter options)
  ∧ (∀ x y a b, assetsAfter options !! x = Some a →
       assetsAfter options !! y = Some b →
       Source.oid a = Source.oid b → 2 ≤ Source.oid a → x = y)
  ∧ (∀ x a, assetsAfter options !! x = Some a → Source.oid a < 2 →
       table !! x = Some a).
Proof.
  intros options.
  apply (objects_keep_one_name options compilation chunks (chunksAfter options)
           (assetsAfter options) 2 (nextAfter options)).
  - apply run_returns. by vm_compute.
  - intros x a. apply (map_Forall_lookup_1 (λ _ a, Source.oid a < 2) table).
    compute_done.
Defined.

(** X15 at work: the imports file of [styles.css] under the template
    [[name]-[part].css]. *)
Lemma imports_template_part_nan_witness :
  let c := config 1 (Js.Str "[name]-[part].css") (Js.Boolean false) in
  let entry := Entry.make "." "styles.css" [] in
  let m := {| assets := table; files := ["main.js"; "styles.css"] |} in
  registerImports (plugin c) entry (host 4 "x") m
  = {| assets := <["styles-NaN.css" := host 4 "x"]> table;
       files := ["main.js"; "styles.css"; "styles-NaN.css"] |}.
Proof.
  intros c entry m.
  apply (imports_template_part_nan (plugin c) c "[name]-[part].css" entry
           (host 4 "x") m "styles-" ".css"); reflexivity.
Defined.

End MoreExamples.
